(** * clubnet: the relational schema of [backend/api/models.py]

    The repository is a declarative schema: eleven model classes, their
    columns and their foreign keys, each with an [on_delete] rule.  The
    schema is embedded below as data, field by field, and is given meaning
    by an interpreter for the declarations it uses ([blank], [null],
    [choices], [default], [auto_now_add], [max_length], one-to-one
    uniqueness, [on_delete=CASCADE] and [on_delete=PROTECT]).

    The interpreter follows the object-relational framework the schema is
    written for, which offers two ways of writing.  On the validated path
    ([create], [update]) an instance is built from keyword arguments and
    defaults, or an editable field of a stored object is assigned; the
    instance is validated ([full_clean]: this is where [blank], [choices],
    [max_length] and [editable] act, and where a reference and a one-to-one
    value are looked up before the write) and then saved.  On the plain
    path ([insert], [save]) the manager's [objects.create] and an
    assignment followed by [save()] write without validating: any column
    can be assigned, the primary key can be chosen, and a write is refused
    only by the tables, whose NOT NULL, UNIQUE and FOREIGN KEY constraints
    are checked on the row as written.  On both paths an insertion sets
    the [auto_now_add] columns.  An object is deleted by collecting
    everything that cascades from it, refusing if a protected reference
    points into the collection, and only then removing the collected rows.
    Every operation either succeeds or leaves the database as it was.

    The columns are those [models.py] declares.  [User] inherits the
    columns of the framework's [AbstractUser] and declares none: the
    embedding gives a user row a primary key and nothing else, and the
    statements about fields range over the declared fields.  A value is
    given in the type of its column; the framework's conversions of other
    Python values are not part of the embedding. *)

From stdpp Require Import gmap strings list fin_maps fin_sets.

Local Open Scope string_scope.
Local Open Scope Z_scope.

(** ** Values, rows and the database *)

(** A column holds [None], a string, a timestamp or a reference (the
    primary key of the row referred to). *)
Inductive value :=
| VNone
| VStr (s : string)
| VTime (t : Z)
| VRef (pk : Z).

#[global] Instance value_eq_dec : EqDecision value.
Proof. solve_decision. Defined.

(** An object is identified by its model name and its primary key. *)
Abbreviation obj := (string * Z)%type.
Abbreviation row := (gmap string value).

Record DB := mkDB {
  objects : gmap obj row;
  (* the auto-increment counter of each table: the next primary key *)
  sequences : gmap string Z
}.

Definition empty_db : DB := {| objects := ∅; sequences := ∅ |}.

Definition next_pk (db : DB) (m : string) : Z := default 1 (sequences db !! m).

(** ** The schema language *)

Inductive on_delete := CASCADE | PROTECT.

#[global] Instance on_delete_eq_dec : EqDecision on_delete.
Proof. solve_decision. Defined.

Inductive field_type :=
| CharField (max_length : nat)
| TextField
| DateTimeField (auto_now_add : bool)
| ForeignKey (to : string) (on_del : on_delete)
| OneToOneField (to : string) (on_del : on_delete).

Record field := mkField {
  f_name : string;
  f_type : field_type;
  f_blank : bool;
  f_null : bool;
  f_choices : option (list (string * string));
  f_default : option value
}.

(** Keyword options of a field declaration, as written in the source. *)
Inductive field_option :=
| blank (b : bool)
| null (b : bool)
| choices (c : list (string * string))
| default_ (v : value).

Definition set_option (o : field_option) (f : field) : field :=
  match o with
  | blank b => mkField (f_name f) (f_type f) b (f_null f) (f_choices f) (f_default f)
  | null b => mkField (f_name f) (f_type f) (f_blank f) b (f_choices f) (f_default f)
  | choices c => mkField (f_name f) (f_type f) (f_blank f) (f_null f) (Some c) (f_default f)
  | default_ v => mkField (f_name f) (f_type f) (f_blank f) (f_null f) (f_choices f) (Some v)
  end.

(** [column name type options]: a declaration [name = models.type(options)].
    Options not given keep the framework's defaults: [blank=False],
    [null=False], no choices, no default. *)
Definition column (name : string) (ty : field_type) (opts : list field_option) : field :=
  foldr set_option (mkField name ty false false None None) opts.

Record model := mkModel {
  m_name : string;
  m_fields : list field;
  (* ManyToManyField declarations (name, target, through): they add no
     column, the rows live in the [through] model. *)
  m_many_to_many : list (string * string * string)
}.

(** ** The schema of [models.py]

    Each class is transcribed with its fields in the order of the source.
    The implicit primary key [id] is the key under which a row is stored.
    The [related_name] options and the [__str__] methods play no part in
    what is stored or deleted and are left out. *)

(** [class User(AbstractUser): pass] declares no column of its own; the
    columns it inherits ([username], [password], [email], ...) are the
    framework's and are not transcribed. *)
Definition User : model := mkModel "User" [] [].

Definition Club : model :=
  mkModel "Club"
    [ column "name" (CharField 100) [blank false];
      column "description" TextField [] ]
    [ ("requests", "User", "ClubMembershipRequest") ].

Definition STATUS_CHOICES : list (string * string) :=
  [ ("PD", "Pending");
    ("AC", "Accepted");
    ("RE", "Rejected");
    ("CN", "Cancelled") ].

Definition ClubMembershipRequest : model :=
  mkModel "ClubMembershipRequest"
    [ column "user" (ForeignKey "User" CASCADE) [blank false];
      column "club" (ForeignKey "Club" CASCADE) [blank false];
      column "initiated" (DateTimeField true) [blank false];
      column "status" (CharField 2)
        [choices STATUS_CHOICES; blank false; default_ (VStr "PD")];
      column "closed" (DateTimeField false)
        [default_ VNone; blank true; null true] ]
    [].

Definition PRIVILEGE_CHOICES : list (string * string) :=
  [ ("REP", "Representative");
    ("MEM", "Member") ].

Definition ClubRole : model :=
  mkModel "ClubRole"
    [ column "name" (CharField 100) [blank false];
      column "description" TextField [];
      column "club" (ForeignKey "Club" CASCADE) [blank false];
      column "privilege" (CharField 3)
        [choices PRIVILEGE_CHOICES; blank false; default_ (VStr "MEM")] ]
    [ ("members", "User", "ClubMembership") ].

Definition ClubMembership : model :=
  mkModel "ClubMembership"
    [ column "user" (ForeignKey "User" CASCADE) [blank false];
      column "club_role" (ForeignKey "ClubRole" CASCADE) [blank false];
      column "joined" (DateTimeField true) [blank false] ]
    [].

Definition Project : model :=
  mkModel "Project"
    [ column "name" (CharField 100) [blank false];
      column "description" TextField [];
      column "started" (DateTimeField true) [blank false];
      column "closed" (DateTimeField false)
        [default_ VNone; blank true; null true];
      column "leader" (ForeignKey "User" PROTECT) [blank false] ]
    [ ("members", "User", "ProjectMembership");
      ("clubs", "Club", "ClubProject") ].

Definition ClubProject : model :=
  mkModel "ClubProject"
    [ column "club" (ForeignKey "Club" CASCADE) [blank false];
      column "project" (ForeignKey "Project" CASCADE) [blank false] ]
    [].

Definition ProjectMembership : model :=
  mkModel "ProjectMembership"
    [ column "user" (ForeignKey "User" CASCADE) [blank false];
      column "project" (ForeignKey "Project" CASCADE) [blank false];
      column "joined" (DateTimeField true) [blank false] ]
    [].

Definition Channel : model :=
  mkModel "Channel"
    [ column "name" (CharField 100) [blank false];
      column "description" TextField [];
      column "club" (OneToOneField "Club" CASCADE) [blank false] ]
    [ ("subscribers", "User", "ChannelSubscription") ].

Definition ChannelSubscription : model :=
  mkModel "ChannelSubscription"
    [ column "user" (ForeignKey "User" CASCADE) [blank false];
      column "channel" (ForeignKey "Channel" CASCADE) [blank false];
      column "joined" (DateTimeField true) [blank false] ]
    [].

Definition Post : model :=
  mkModel "Post"
    [ column "content" TextField [blank false];
      column "created" (DateTimeField true) [blank false];
      column "channel" (ForeignKey "Channel" CASCADE) [blank false] ]
    [].

Definition Conversation : model :=
  mkModel "Conversation"
    [ column "content" TextField [blank false];
      column "created" (DateTimeField true) [blank false];
      column "channel" (ForeignKey "Channel" CASCADE) [blank false];
      column "author" (ForeignKey "User" CASCADE) [blank false];
      column "parent" (ForeignKey "Conversation" CASCADE)
        [default_ VNone; blank true; null true] ]
    [].

Definition Feedback : model :=
  mkModel "Feedback"
    [ column "content" TextField [blank false];
      column "created" (DateTimeField true) [blank false];
      column "club" (ForeignKey "Club" CASCADE) [blank false];
      column "author" (ForeignKey "User" CASCADE) [blank false] ]
    [].

Definition FeedbackReply : model :=
  mkModel "FeedbackReply"
    [ column "content" TextField [blank false];
      column "created" (DateTimeField true) [blank false];
      column "parent" (OneToOneField "Feedback" CASCADE) [blank false] ]
    [].

Definition schema : list model :=
  [ User; Club; ClubMembershipRequest; ClubRole; ClubMembership; Project;
    ClubProject; ProjectMembership; Channel; ChannelSubscription; Post;
    Conversation; Feedback; FeedbackReply ].

Definition get_model (m : string) : option model :=
  List.find (λ M, bool_decide (m_name M = m)) schema.

Definition get_field (M : model) (name : string) : option field :=
  List.find (λ f, bool_decide (f_name f = name)) (m_fields M).

(** ** Reading the declarations *)

Definition auto_now_add_of (f : field) : bool :=
  match f_type f with DateTimeField b => b | _ => false end.

(** [auto_now_add=True] makes the framework set [editable=False] and
    [blank=True] on the field, whatever the declaration says. *)
Definition editable (f : field) : bool := negb (auto_now_add_of f).
Definition blank_of (f : field) : bool := f_blank f || auto_now_add_of f.

(** A one-to-one field is a foreign key with a uniqueness constraint. *)
Definition unique (f : field) : bool :=
  match f_type f with OneToOneField _ _ => true | _ => false end.

(** A relation: (referring model, column, target model, on_delete). *)
Abbreviation relation := (string * string * string * on_delete)%type.

Definition field_relation (m : string) (f : field) : list relation :=
  match f_type f with
  | ForeignKey to od | OneToOneField to od => [(m, f_name f, to, od)]
  | _ => []
  end.

Definition relations : list relation :=
  M ← schema; f ← m_fields M; field_relation (m_name M) f.

(** ** Outcomes *)

Inductive error :=
| DoesNotExist
| LookupError
| TypeError
| FieldError
| ValidationError (field code : string)
| IntegrityError
| ProtectedError.

Inductive result :=
| Created (pk : Z)
| Updated
| Deleted
| Err (e : error).

(** ** Deletion: the collector *)

(** Does column [f] of row [r] hold a reference to an object of model [to]
    that is in [S]? *)
Definition refers (r : row) (f to : string) (S : gset obj) : bool :=
  match r !! f with
  | Some (VRef pk) => bool_decide ((to, pk) ∈ S)
  | _ => false
  end.

(** Row [r] of object [x] points into [S] through a relation whose
    [on_delete] rule is [od]. *)
Definition related (od : on_delete) (S : gset obj) (x : obj) (r : row) : bool :=
  existsb
    (λ '(m, f, to, od'),
       bool_decide (m = x.1) && bool_decide (od' = od) && refers r f to S)
    relations.

Definition related_objects (db : DB) (od : on_delete) (S : gset obj) : gset obj :=
  dom (filter (λ xr, related od S xr.1 xr.2) (objects db)).

(** One round of collection adds everything that refers, through a CASCADE
    relation, to an object already collected.  Collection repeats the round
    until nothing new is found; every productive round adds a stored row, so
    as many rounds as there are rows are enough ([collect_closed]). *)
Definition cascade_step (db : DB) (S : gset obj) : gset obj :=
  S ∪ related_objects db CASCADE S.

Definition collect (db : DB) (S : gset obj) : gset obj :=
  Nat.iter (size (objects db)) (cascade_step db) S.

Definition remove_objects (S : gset obj) (db : DB) : DB :=
  mkDB (filter (λ xr, xr.1 ∉ S) (objects db)) (sequences db).

(** [delete m pk]: the instance is fetched, the objects to delete are
    collected, a PROTECT relation pointing into the collection refuses the
    whole deletion, and otherwise the collected rows are removed.  Nothing
    is written before the collection has finished. *)
Definition delete (m : string) (pk : Z) (db : DB) : DB * result :=
  match objects db !! (m, pk) with
  | None => (db, Err DoesNotExist)
  | Some _ =>
    let S := collect db {[ (m, pk) ]} in
    if decide (related_objects db PROTECT S = ∅)
    then (remove_objects S db, Deleted)
    else (db, Err ProtectedError)
  end.

(** ** Creation and update: instance, validation, save

    [create] and [update] below are the validated path: what a caller does
    that calls [full_clean()] before [save()], as the forms the framework
    builds from a model do.  The plain path, which does not validate, is
    [insert] and [save] further down. *)

Definition empty_values (v : value) : bool :=
  match v with
  | VNone => true
  | VStr s => bool_decide (s = "")
  | _ => false
  end.

Definition empty_strings_allowed (t : field_type) : bool :=
  match t with CharField _ | TextField => true | _ => false end.

(** The value a field takes when the keyword arguments do not mention it:
    the declared default; without one, the empty string for a non-nullable
    text column, and [None] otherwise. *)
Definition get_default (f : field) : value :=
  match f_default f with
  | Some v => v
  | None =>
    if empty_strings_allowed (f_type f) && negb (f_null f) then VStr "" else VNone
  end.

Definition getattr (inst : row) (name : string) : value :=
  default VNone (inst !! name).

(** The constructor call: every field gets the supplied value or its default. *)
Definition instance (M : model) (kw : gmap string value) : row :=
  list_to_map
    ((λ f, (f_name f, default (get_default f) (kw !! f_name f))) <$> m_fields M).

Definition to_python (t : field_type) (v : value) : bool :=
  match v, t with
  | VNone, _ => true
  | VStr _, (CharField _ | TextField) => true
  | VTime _, DateTimeField _ => true
  | VRef _, (ForeignKey _ _ | OneToOneField _ _) => true
  | _, _ => false
  end.

Definition in_choices (c : list (string * string)) (v : value) : bool :=
  match v with
  | VStr s => bool_decide (s ∈ c.*1)
  | _ => false
  end.

(** [Field.validate]: skipped for a non-editable field; then the choices,
    [null] and [blank] checks; a foreign key must also point to a stored
    row of its target model. *)
Definition validate (db : DB) (f : field) (v : value) : option string :=
  if negb (editable f) then None
  else if match f_choices f with
          | Some c => negb (empty_values v) && negb (in_choices c v)
          | None => false
          end then Some "invalid_choice"
  else if bool_decide (v = VNone) && negb (f_null f) then Some "null"
  else if negb (blank_of f) && empty_values v then Some "blank"
  else match f_type f, v with
       | (ForeignKey to _ | OneToOneField to _), VRef pk =>
         if bool_decide (is_Some (objects db !! (to, pk))) then None
         else Some "invalid"
       | _, _ => None
       end.

(** A string is the UTF-8 text of the column: its characters are counted by
    the bytes that do not continue a character (the bytes [10xxxxxx]
    do). *)
Definition continuation_byte (a : Ascii.ascii) : bool :=
  match a with
  | Ascii.Ascii _ _ _ _ _ _ false true => true
  | _ => false
  end.

Fixpoint char_length (s : string) : nat :=
  match s with
  | EmptyString => 0%nat
  | String a s => ((if continuation_byte a then 0 else 1) + char_length s)%nat
  end.

Definition run_validators (f : field) (v : value) : option string :=
  match f_type f, v with
  | CharField n, VStr s =>
    if bool_decide (char_length s ≤ n)%nat then None else Some "max_length"
  | _, _ => None
  end.

(** One iteration of [clean_fields]: an empty value of a [blank] field is
    accepted as it is; otherwise the value is converted, validated and run
    through the validators.  The result is the error code, if any. *)
Definition clean_field (db : DB) (f : field) (v : value) : option string :=
  if blank_of f && empty_values v then None
  else if negb (to_python (f_type f) v) then Some "invalid"
  else match validate db f v with
       | Some code => Some code
       | None => run_validators f v
       end.

(** The first field that fails is reported. *)
Fixpoint clean_fields (db : DB) (fs : list field) (inst : row) : option error :=
  match fs with
  | [] => None
  | f :: fs =>
    match clean_field db f (getattr inst (f_name f)) with
    | Some code => Some (ValidationError (f_name f) code)
    | None => clean_fields db fs inst
    end
  end.

(** Another stored row of model [m] (other than [self], when the instance
    is already stored) holds [v] in column [name]. *)
Definition taken (db : DB) (m : string) (self : option Z) (name : string) (v : value) : Prop :=
  ∃ pk r, objects db !! (m, pk) = Some r ∧ Some pk ≠ self ∧ r !! name = Some v.

Definition takenb (db : DB) (m : string) (self : option Z) (name : string) (v : value) : bool :=
  negb (bool_decide (map_Forall
    (λ (x : obj) (r : row), ¬ (x.1 = m ∧ Some x.2 ≠ self ∧ r !! name = Some v))
    (objects db))).

Fixpoint validate_unique (db : DB) (m : string) (self : option Z)
    (fs : list field) (inst : row) : option error :=
  match fs with
  | [] => None
  | f :: fs =>
    if unique f
       && negb (bool_decide (getattr inst (f_name f) = VNone))
       && takenb db m self (f_name f) (getattr inst (f_name f))
    then Some (ValidationError (f_name f) "unique")
    else validate_unique db m self fs inst
  end.

Definition full_clean (db : DB) (M : model) (self : option Z) (inst : row) : option error :=
  match clean_fields db (m_fields M) inst with
  | Some e => Some e
  | None => validate_unique db (m_name M) self (m_fields M) inst
  end.

(** [pre_save] on insertion: an [auto_now_add] field takes the current time,
    whatever the instance held. *)
Definition pre_save (now : Z) (fs : list field) (inst : row) : row :=
  foldr (λ f r, if auto_now_add_of f then <[f_name f := VTime now]> r else r) inst fs.

(** The NOT NULL constraints of the table. *)
Definition not_null_ok (fs : list field) (inst : row) : bool :=
  forallb (λ f, f_null f || negb (bool_decide (getattr inst (f_name f) = VNone))) fs.

Definition field_names (M : model) : gset string :=
  list_to_set (f_name <$> m_fields M).

(** [create now m kw], the validated creation: build the instance from
    values for its fields, validate it, save it under the next primary key
    of the table.  The primary key is not among the fields a caller fills
    in here ([insert] takes it).  A failure leaves the database as it
    was. *)
Definition create (now : Z) (m : string) (kw : gmap string value) (db : DB) : DB * result :=
  match get_model m with
  | None => (db, Err LookupError)
  | Some M =>
    if negb (bool_decide (dom kw ⊆ field_names M)) then (db, Err TypeError)
    else
      let inst := instance M kw in
      match full_clean db M None inst with
      | Some e => (db, Err e)
      | None =>
        let inst' := pre_save now (m_fields M) inst in
        let pk := next_pk db m in
        if not_null_ok (m_fields M) inst'
           && bool_decide (objects db !! (m, pk) = None)
        then (mkDB (<[(m, pk) := inst']> (objects db))
                   (<[m := pk + 1]> (sequences db)), Created pk)
        else (db, Err IntegrityError)
      end
  end.

(** [update m pk name v], the validated update: fetch the instance, assign
    one editable field, validate, save.  An [auto_now_add] field is not
    editable: it is not among the fields this path offers, and only the
    plain [save] assigns it. *)
Definition update (m : string) (pk : Z) (name : string) (v : value) (db : DB) : DB * result :=
  match get_model m with
  | None => (db, Err LookupError)
  | Some M =>
    match objects db !! (m, pk) with
    | None => (db, Err DoesNotExist)
    | Some r =>
      match get_field M name with
      | None => (db, Err FieldError)
      | Some f =>
        if negb (editable f) then (db, Err FieldError)
        else
          let inst := <[name := v]> r in
          match full_clean db M (Some pk) inst with
          | Some e => (db, Err e)
          | None =>
            if not_null_ok (m_fields M) inst
            then (mkDB (<[(m, pk) := inst]> (objects db)) (sequences db), Updated)
            else (db, Err IntegrityError)
          end
      end
    end
  end.

(** ** The [__str__] methods *)

Section str_methods.

(** [str] of a datetime: its rendering is the language's, not the
    file's. *)
Variable str_datetime : Z → string.

(** [str(v)] of the value of a plain column.  A reference is never
    printed: a foreign key is read through the related instance. *)
Definition str (v : value) : option string :=
  match v with
  | VNone => Some "None"
  | VStr s => Some s
  | VTime t => Some (str_datetime t)
  | VRef _ => None
  end.

(** [self.f], the instance a foreign key [f] to model [to] refers to.
    Reading it raises when the column holds no reference or the row is
    not stored: the result is then [None]. *)
Definition related_instance (db : DB) (self : row) (f to : string) : option row :=
  match self !! f with
  | Some (VRef pk) => objects db !! (to, pk)
  | _ => None
  end.

(** [return self.name]: a [__str__] must return a string. *)
Definition Club__str__ (self : row) : option string :=
  match getattr self "name" with
  | VStr s => Some s
  | _ => None
  end.

(** [return str(self.club) + " " + str(self.name)] *)
Definition ClubRole__str__ (db : DB) (self : row) : option string :=
  club ← related_instance db self "club" "Club";
  a ← Club__str__ club;
  b ← str (getattr self "name");
  Some (a +:+ " " +:+ b).

(** [return str(self.name)] *)
Definition Project__str__ (self : row) : option string :=
  str (getattr self "name").

(** [return str(self.club) + " " + str(self.name)] *)
Definition Channel__str__ (db : DB) (self : row) : option string :=
  club ← related_instance db self "club" "Club";
  a ← Club__str__ club;
  b ← str (getattr self "name");
  Some (a +:+ " " +:+ b).

(** [return str(self.channel) + " " + str(self.created)] *)
Definition Post__str__ (db : DB) (self : row) : option string :=
  channel ← related_instance db self "channel" "Channel";
  a ← Channel__str__ db channel;
  b ← str (getattr self "created");
  Some (a +:+ " " +:+ b).

(** [return str(self.channel) + " " + str(self.created)] *)
Definition Conversation__str__ (db : DB) (self : row) : option string :=
  channel ← related_instance db self "channel" "Channel";
  a ← Channel__str__ db channel;
  b ← str (getattr self "created");
  Some (a +:+ " " +:+ b).

(** [return str(self.club) + " " + str(self.created)] *)
Definition Feedback__str__ (db : DB) (self : row) : option string :=
  club ← related_instance db self "club" "Club";
  a ← Club__str__ club;
  b ← str (getattr self "created");
  Some (a +:+ " " +:+ b).

(** [return str(self.parent) + " " + str(self.created)] *)
Definition FeedbackReply__str__ (db : DB) (self : row) : option string :=
  parent ← related_instance db self "parent" "Feedback";
  a ← Feedback__str__ db parent;
  b ← str (getattr self "created");
  Some (a +:+ " " +:+ b).

(** [str(x)] of a stored object of a model that defines [__str__]. *)
Definition str_of (db : DB) (m : string) (pk : Z) : option string :=
  self ← objects db !! (m, pk);
  match m with
  | "Club" => Club__str__ self
  | "ClubRole" => ClubRole__str__ db self
  | "Project" => Project__str__ self
  | "Channel" => Channel__str__ db self
  | "Post" => Post__str__ db self
  | "Conversation" => Conversation__str__ db self
  | "Feedback" => Feedback__str__ db self
  | "FeedbackReply" => FeedbackReply__str__ db self
  | _ => None
  end.

End str_methods.


(** ** Operations and reachable states *)

Inductive op :=
| Create (now : Z) (m : string) (kw : gmap string value)
| Update (m : string) (pk : Z) (name : string) (v : value)
| Delete (m : string) (pk : Z).

Definition exec (o : op) (db : DB) : DB * result :=
  match o with
  | Create now m kw => create now m kw db
  | Update m pk name v => update m pk name v db
  | Delete m pk => delete m pk db
  end.

Definition run (ops : list op) (db : DB) : DB :=
  foldl (λ db o, (exec o db).1) db ops.

(** The states reached by validated creations and updates and by
    deletions. *)
Definition reachable (db : DB) : Prop := ∃ ops, db = run ops empty_db.

(** ** Plain writes: [objects.create] and [save] without validation

    The manager's [Model.objects.create] builds the instance from its
    keywords and saves it; an assignment [x.name = v] followed by
    [x.save()] saves the instance as it is.  Neither calls [full_clean]: [blank], [choices] and
    [max_length] are not looked at and [editable=False] stops no
    assignment.  A value is converted to the type of its column, and the
    row is then refused only by the constraints of its table. *)

(** [get_db_prep_save]: the value of each column is converted to the type of
    the column; the first that cannot be is reported. *)
Fixpoint get_db_prep_save (fs : list field) (inst : row) : option error :=
  match fs with
  | [] => None
  | f :: fs =>
    if to_python (f_type f) (getattr inst (f_name f))
    then get_db_prep_save fs inst
    else Some (ValidationError (f_name f) "invalid")
  end.

(** The UNIQUE constraint of a one-to-one column: no other row of the table
    holds the value.  NULLs are not compared. *)
Definition unique_ok (db : DB) (m : string) (pk : Z) (fs : list field) (inst : row) : bool :=
  forallb
    (λ f, negb (unique f
                && negb (bool_decide (getattr inst (f_name f) = VNone))
                && takenb db m (Some pk) (f_name f) (getattr inst (f_name f))))
    fs.

(** The FOREIGN KEY constraints: a reference points to a stored row of the
    target. *)
Definition foreign_keys_ok (db : DB) (fs : list field) (inst : row) : bool :=
  forallb
    (λ f, match f_type f, getattr inst (f_name f) with
          | (ForeignKey to _ | OneToOneField to _), VRef pk =>
            bool_decide (is_Some (objects db !! (to, pk)))
          | _, _ => true
          end)
    fs.

(** The constraints of the table of [M] on the row [inst] of key [pk], in
    the database [db] that holds the row: they are checked once the row is
    written, so a row may refer to itself.  The length of a [CharField] is
    not among them: not every database engine enforces it. *)
Definition constraints_ok (db : DB) (M : model) (pk : Z) (inst : row) : bool :=
  not_null_ok (m_fields M) inst
  && unique_ok db (m_name M) pk (m_fields M) inst
  && foreign_keys_ok db (m_fields M) inst.

(** The primary key of a new row: the keyword [pk], or else [id], when it
    holds a key, and otherwise the next key of the table.  [None] when the
    keyword holds something that is no key. *)
Definition new_pk (db : DB) (m : string) (kw : gmap string value) : option Z :=
  match default (default VNone (kw !! "id")) (kw !! "pk") with
  | VNone => Some (next_pk db m)
  | VRef pk => Some pk
  | _ => None
  end.

(** [insert now m kw]: [Model.objects.create] with the keywords [kw], which
    are fields of the model or the primary key; a field left out takes its
    default; the [auto_now_add] columns take the current time; the row is
    inserted under its key, which must be free, and the counter of the
    table moves past the key. *)
Definition insert (now : Z) (m : string) (kw : gmap string value) (db : DB) : DB * result :=
  match get_model m with
  | None => (db, Err LookupError)
  | Some M =>
    if negb (bool_decide (dom kw ⊆ {[ "id"; "pk" ]} ∪ field_names M))
    then (db, Err TypeError)
    else
      match new_pk db m kw with
      | None => (db, Err (ValidationError "id" "invalid"))
      | Some pk =>
        let inst := pre_save now (m_fields M) (instance M kw) in
        match get_db_prep_save (m_fields M) inst with
        | Some e => (db, Err e)
        | None =>
          let db' := mkDB (<[(m, pk) := inst]> (objects db))
                          (<[m := Z.max (next_pk db m) (pk + 1)]> (sequences db)) in
          if bool_decide (objects db !! (m, pk) = None)
             && constraints_ok db' M pk inst
          then (db', Created pk)
          else (db, Err IntegrityError)
        end
      end
  end.

(** [save m pk name v]: [x = Model.objects.get(pk=pk); x.name = v; x.save()]
    for a column [name] of the model, editable or not.  The row is written
    back with the assigned value. *)
Definition save (m : string) (pk : Z) (name : string) (v : value) (db : DB) : DB * result :=
  match get_model m with
  | None => (db, Err LookupError)
  | Some M =>
    match objects db !! (m, pk) with
    | None => (db, Err DoesNotExist)
    | Some r =>
      match get_field M name with
      | None => (db, Err FieldError)
      | Some f =>
        let inst := <[name := v]> r in
        match get_db_prep_save (m_fields M) inst with
        | Some e => (db, Err e)
        | None =>
          let db' := mkDB (<[(m, pk) := inst]> (objects db)) (sequences db) in
          if constraints_ok db' M pk inst then (db', Updated)
          else (db, Err IntegrityError)
        end
      end
    end
  end.

(** The operations of both paths. *)
Inductive orm_op :=
| Insert (now : Z) (m : string) (kw : gmap string value)
| Save (m : string) (pk : Z) (name : string) (v : value)
| Checked (o : op).

Definition orm_exec (o : orm_op) (db : DB) : DB * result :=
  match o with
  | Insert now m kw => insert now m kw db
  | Save m pk name v => save m pk name v db
  | Checked o => exec o db
  end.

Definition orm_run (ops : list orm_op) (db : DB) : DB :=
  foldl (λ db o, (orm_exec o db).1) db ops.

(** The states reached when callers may write on either path. *)
Definition orm_reachable (db : DB) : Prop := ∃ ops, db = orm_run ops empty_db.

(** ** Vocabulary of the statements *)

(** Object [x] is stored and refers to object [y] through a relation whose
    [on_delete] rule is [od]. *)
Definition refs_to (db : DB) (od : on_delete) (y x : obj) : Prop :=
  ∃ r f, objects db !! x = Some r
         ∧ (x.1, f, y.1, od) ∈ relations
         ∧ r !! f = Some (VRef y.2).

(** [cascades db x z]: [z] is [x], or refers through CASCADE relations, in
    one or more hops, to [x]. *)
Inductive cascades (db : DB) (x : obj) : obj → Prop :=
| cascades_refl : cascades db x x
| cascades_step y z :
    cascades db x y → refs_to db CASCADE y z → cascades db x z.

(** The value of a column of a stored row. *)
Definition column_of (db : DB) (m : string) (pk : Z) (name : string) : option value :=
  objects db !! (m, pk) ≫= λ r, r !! name.

Definition stored (db : DB) (m : string) (pk : Z) : Prop :=
  is_Some (objects db !! (m, pk)).

(** [descends db a c]: conversation [c] is [a] or is below [a] in the
    thread, following the [parent] column. *)
Inductive descends (db : DB) (a : Z) : Z → Prop :=
| descends_refl : descends db a a
| descends_child p c :
    descends db a p →
    stored db "Conversation" c →
    column_of db "Conversation" c "parent" = Some (VRef p) →
    descends db a c.

(** Row [pk] of model [m] belongs to user [u]: one of its columns is a
    cascading reference to [u] ([user] or [author], depending on the
    model). *)
Definition owned (db : DB) (u : Z) (m : string) (pk : Z) : Prop :=
  refs_to db CASCADE ("User", u) (m, pk).

Definition leads_no_project (db : DB) (u : Z) : Prop :=
  ∀ p, column_of db "Project" p "leader" ≠ Some (VRef u).

(** A set of models that contains, with a model, every model holding a
    CASCADE reference to it. *)
Definition cascade_closed (T : list string) : bool :=
  forallb
    (λ rel : relation,
       implb (bool_decide (rel.2 = CASCADE) && bool_decide (rel.1.2 ∈ T))
             (bool_decide (rel.1.1.1 ∈ T)))
    relations.

(** The tables of the rows a user owns or writes. *)
Definition user_tables : list string :=
  [ "ClubMembershipRequest"; "ClubMembership"; "ChannelSubscription";
    "Post"; "Conversation"; "Feedback" ].

(** A small forum: two users, a club with its channel, a conversation of
    the first user and an answer of the second. *)
Definition thread_ops : list op :=
  [ Create 1 "User" ∅;
    Create 2 "User" ∅;
    Create 3 "Club" {[ "name" := VStr "chess"; "description" := VStr "games" ]};
    Create 4 "Channel"
      {[ "name" := VStr "general"; "description" := VStr "talk";
         "club" := VRef 1 ]};
    Create 5 "Conversation"
      {[ "content" := VStr "hello"; "channel" := VRef 1; "author" := VRef 1 ]};
    Create 6 "Conversation"
      {[ "content" := VStr "welcome"; "channel" := VRef 1; "author" := VRef 2;
         "parent" := VRef 1 ]} ].

Definition thread_db : DB := run thread_ops empty_db.

(** The same forum after the second user has started a project of the
    club and the first user has joined it. *)
Definition project_ops : list op :=
  [ Create 7 "Project"
      {[ "name" := VStr "opening book"; "description" := VStr "study";
         "leader" := VRef 2 ]};
    Create 8 "ProjectMembership" {[ "user" := VRef 1; "project" := VRef 1 ]};
    Create 9 "ClubProject" {[ "club" := VRef 1; "project" := VRef 1 ]} ].

Definition project_db : DB := run project_ops thread_db.

(** The forum after the first user has asked to join the club, the second
    user has left a feedback and the club has answered it. *)
Definition feedback_ops : list op :=
  [ Create 10 "ClubMembershipRequest" {[ "user" := VRef 1; "club" := VRef 1 ]};
    Create 11 "Feedback"
      {[ "content" := VStr "more events"; "club" := VRef 1; "author" := VRef 2 ]};
    Create 12 "FeedbackReply"
      {[ "content" := VStr "noted"; "parent" := VRef 1 ]} ].

Definition feedback_db : DB := run feedback_ops thread_db.

(** ... and after the request has been accepted and closed. *)
Definition close_ops : list op :=
  [ Update "ClubMembershipRequest" 1 "status" (VStr "AC");
    Update "ClubMembershipRequest" 1 "closed" (VTime 20) ].

Definition closed_db : DB := run close_ops feedback_db.

(** The forum after a post in the channel, a role of the club given to
    the first user, and the first user's subscription to the channel. *)
Definition post_ops : list op :=
  [ Create 30 "Post" {[ "content" := VStr "tournament"; "channel" := VRef 1 ]};
    Create 31 "ClubRole"
      {[ "name" := VStr "captain"; "description" := VStr "leads the team";
         "club" := VRef 1; "privilege" := VStr "REP" ]};
    Create 32 "ClubMembership" {[ "user" := VRef 1; "club_role" := VRef 1 ]};
    Create 33 "ChannelSubscription" {[ "user" := VRef 1; "channel" := VRef 1 ]} ].

Definition post_db : DB := run post_ops feedback_db.

(** The models to which no field of the schema refers. *)
Definition leaf_models : list string :=
  filter (λ m, forallb (λ rel : relation, negb (bool_decide (rel.1.2 = m))) relations)
         (m_name <$> schema).

(** A [through] model links both ends of its many-to-many declaration:
    it has a CASCADE foreign key to the declaring model and one to the
    target. *)
Definition through_links (m : string) (d : string * string * string) : Prop :=
  ∃ f1 f2,
    (d.2, f1, m, CASCADE) ∈ relations ∧ (d.2, f2, d.1.2, CASCADE) ∈ relations.

(** The [auto_now_add] columns of the schema, with their models. *)
Definition auto_columns : list (string * string) :=
  M ← schema; f ← m_fields M;
  if auto_now_add_of f then [(m_name M, f_name f)] else [].

(** The models with a [closed] column. *)
Definition closed_tables (m : string) : Prop :=
  m = "ClubMembershipRequest" ∨ m = "Project".

(** The reading of C7 as it is stated: an [auto_now_add] column of a row
    never changes; [closed] is null in a created row; and an operation
    changes [closed] only if it was null. *)
Definition timestamps_written_once : Prop :=
  (∀ db o m M f pk v,
     reachable db → get_model m = Some M → f ∈ m_fields M →
     auto_now_add_of f = true →
     column_of db m pk (f_name f) = Some v →
     stored (exec o db).1 m pk →
     column_of (exec o db).1 m pk (f_name f) = Some v)
  ∧ (∀ now m kw db db' pk,
       closed_tables m → reachable db →
       create now m kw db = (db', Created pk) →
       column_of db' m pk "closed" = Some VNone)
  ∧ (∀ db o m pk v v',
       closed_tables m → reachable db →
       column_of db m pk "closed" = Some v →
       column_of (exec o db).1 m pk "closed" = Some v' →
       v' = v ∨ v = VNone).


(** The reading of C2 under which the deletion of a user removes, from the
    tables of [user_tables], the rows of that user and no other row. *)
Definition user_delete_removes_own_rows_only (db : DB) (u : Z) : Prop :=
  ∃ db', delete "User" u db = (db', Deleted)
    ∧ ∀ m pk, m ∈ user_tables → stored db m pk →
        (¬ stored db' m pk ↔ owned db u m pk).

(** The reading of C6 as it is stated, the operations being those of both
    paths: a request inserted without a status has the status ["PD"], and
    in every state that can be reached the status of every request is one
    of the codes of [STATUS_CHOICES]. *)
Definition status_always_declared : Prop :=
  (∀ now kw db db' pk,
     kw !! "status" = None →
     insert now "ClubMembershipRequest" kw db = (db', Created pk) →
     column_of db' "ClubMembershipRequest" pk "status" = Some (VStr "PD"))
  ∧ (∀ db pk,
       orm_reachable db → stored db "ClubMembershipRequest" pk →
       ∃ code label,
         column_of db "ClubMembershipRequest" pk "status" = Some (VStr code)
         ∧ (code, label) ∈ STATUS_CHOICES).

(** The forum after a plain insertion of a membership request whose status
    is no declared code. *)
Definition undeclared_ops : list orm_op :=
  (Checked <$> thread_ops)
  ++ [ Insert 10 "ClubMembershipRequest"
         {[ "user" := VRef 1; "club" := VRef 1; "status" := VStr "XX" ]} ].

Definition undeclared_db : DB := orm_run undeclared_ops empty_db.

(** [written db db' m pk]: a plain write of row [pk] of model [m], an
    insertion or a save, leads from [db] to [db']. *)
Definition written (db db' : DB) (m : string) (pk : Z) : Prop :=
  (∃ now kw, insert now m kw db = (db', Created pk))
  ∨ (∃ name v, save m pk name v db = (db', Updated)).

(** ** Invariants of the reachable states *)






(** * Properties *)

(** ** The collector *)

Lemma related_spec od S x r :
  related od S x r ↔
  ∃ f to pk, (x.1, f, to, od) ∈ relations ∧ r !! f = Some (VRef pk) ∧ (to, pk) ∈ S.
Proof.
  unfold related. rewrite Is_true_true, existsb_exists. split.
  - intros ([[[m f] to] od'] & Hin & H).
    apply list_elem_of_In in Hin.
    apply andb_prop in H as [H Hr]. apply andb_prop in H as [Hm Hod].
    apply bool_decide_eq_true in Hm, Hod. subst.
    unfold refers in Hr. destruct (r !! f) as [[| | |pk]|] eqn:E; try done.
    apply bool_decide_eq_true in Hr. eauto 10.
  - intros (f & to & pk & Hin & Hr & HS).
    exists (x.1, f, to, od). split; [by apply list_elem_of_In|].
    unfold refers. rewrite Hr.
    rewrite !bool_decide_eq_true_2 by done. done.
Qed.

Lemma elem_of_related_objects db od S x :
  x ∈ related_objects db od S ↔ ∃ y, y ∈ S ∧ refs_to db od y x.
Proof.
  unfold related_objects, refs_to. rewrite elem_of_dom. unfold is_Some.
  setoid_rewrite map_lookup_filter_Some. simpl. split.
  - intros (r & Hr & Hrel). apply related_spec in Hrel as (f & to & pk & ? & ? & ?).
    exists (to, pk). eauto 10.
  - intros ([to pk] & HS & r & f & Hr & Hin & Hf). exists r. split; [done|].
    apply related_spec. eauto 10.
Qed.

Lemma related_objects_stored db od S x :
  x ∈ related_objects db od S → x ∈ dom (objects db).
Proof.
  rewrite elem_of_related_objects. intros (y & _ & r & f & Hr & _).
  apply elem_of_dom. eauto.
Qed.

Lemma cascade_step_incr db S : S ⊆ cascade_step db S.
Proof. unfold cascade_step. set_solver. Qed.

Lemma collect_incr_iter db n S : S ⊆ Nat.iter n (cascade_step db) S.
Proof.
  induction n as [|n IH]; simpl; [done|].
  etrans; [apply IH|apply cascade_step_incr].
Qed.

Lemma iter_bound db n S :
  Nat.iter n (cascade_step db) S ⊆ S ∪ dom (objects db).
Proof.
  induction n as [|n IH]; simpl; [set_solver|].
  unfold cascade_step at 1. intros x [Hx|Hx]%elem_of_union.
  - by apply IH.
  - apply elem_of_union_r. by eapply related_objects_stored.
Qed.

(** Rounds are enough: once the rows not yet collected number at most [n],
    [n] rounds reach a set that a further round does not enlarge. *)
Lemma iter_fixpoint db n S :
  (size (dom (objects db) ∖ S) ≤ n)%nat →
  cascade_step db (Nat.iter n (cascade_step db) S) = Nat.iter n (cascade_step db) S.
Proof.
  revert S. induction n as [|n IH]; intros S Hn.
  - simpl. apply set_eq. intros x. split; [|apply cascade_step_incr].
    unfold cascade_step. intros [Hx|Hx]%elem_of_union; [done|].
    apply related_objects_stored in Hx.
    assert (size (dom (objects db) ∖ S) = 0%nat) as HE%size_empty_inv by lia.
    destruct (decide (x ∈ S)); [done|]. set_solver.
  - rewrite Nat.iter_succ_r.
    destruct (decide (cascade_step db S = S)) as [Heq|Hne].
    + assert (Hfix : ∀ k, Nat.iter k (cascade_step db) S = S).
      { induction k as [|k IHk]; simpl; [done|]. by rewrite IHk. }
      rewrite Heq, Hfix. done.
    + apply IH.
      assert (dom (objects db) ∖ cascade_step db S ⊂ dom (objects db) ∖ S) as Hlt.
      { split.
        { intros x [Hx Hnx]%elem_of_difference. apply elem_of_difference.
          split; [done|]. intros HxS. by apply Hnx, cascade_step_incr. }
        intros Hsub. apply Hne. apply set_eq. intros x.
        split; [|apply cascade_step_incr].
        unfold cascade_step. intros [Hx|Hx]%elem_of_union; [done|].
        destruct (decide (x ∈ S)); [done|]. exfalso.
        assert (x ∈ dom (objects db) ∖ cascade_step db S) as Hx'.
        { apply Hsub. apply elem_of_difference. split; [|done].
          by eapply related_objects_stored. }
        apply elem_of_difference in Hx' as [_ Hx']. apply Hx'.
        unfold cascade_step. by apply elem_of_union_r. }
      apply subset_size in Hlt. lia.
Qed.

Lemma collect_fixpoint db S : cascade_step db (collect db S) = collect db S.
Proof.
  apply iter_fixpoint. rewrite <- size_dom.
  apply subseteq_size. by intros x [? _]%elem_of_difference.
Qed.

Lemma collect_seed db S : S ⊆ collect db S.
Proof. apply collect_incr_iter. Qed.

(** The collection is closed under CASCADE references. *)
Lemma collect_closed db S y x :
  y ∈ collect db S → refs_to db CASCADE y x → x ∈ collect db S.
Proof.
  intros Hy Hxy. rewrite <- collect_fixpoint. unfold cascade_step.
  apply elem_of_union_r, elem_of_related_objects. eauto.
Qed.

Lemma collect_complete db S x z :
  x ∈ S → cascades db x z → z ∈ collect db S.
Proof.
  intros Hx. induction 1 as [|y z _ IH Hr].
  - by apply collect_seed.
  - by eapply collect_closed.
Qed.

(** ... and it holds nothing else. *)
Lemma collect_sound db S z :
  z ∈ collect db S → ∃ x, x ∈ S ∧ cascades db x z.
Proof.
  unfold collect. generalize (size (objects db)) as n.
  induction n as [|n IH] in z |- *; simpl.
  - intros Hz. exists z. split; [done|constructor].
  - unfold cascade_step at 1. intros [Hz|Hz]%elem_of_union; [by apply IH|].
    apply elem_of_related_objects in Hz as (y & Hy & Hr).
    apply IH in Hy as (x & Hx & Hc). exists x. split; [done|].
    by eapply cascades_step.
Qed.

Lemma elem_of_collect db S z :
  z ∈ collect db S ↔ ∃ x, x ∈ S ∧ cascades db x z.
Proof.
  split; [apply collect_sound|]. intros (x & ? & ?). by eapply collect_complete.
Qed.

(** ** Deletion *)

Lemma lookup_remove_objects S db x :
  objects (remove_objects S db) !! x
  = if decide (x ∈ S) then None else objects db !! x.
Proof.
  unfold remove_objects. simpl. case_decide as Hx.
  - apply map_lookup_filter_None. right. intros r _ Hn. by apply Hn.
  - destruct (objects db !! x) as [r|] eqn:E.
    + by apply map_lookup_filter_Some.
    + apply map_lookup_filter_None. by left.
Qed.

Lemma stored_remove_objects S db m pk :
  stored (remove_objects S db) m pk ↔ stored db m pk ∧ (m, pk) ∉ S.
Proof.
  unfold stored. rewrite lookup_remove_objects. case_decide; [|tauto].
  split; [by intros []|tauto].
Qed.

Lemma column_of_Some db m pk name v :
  column_of db m pk name = Some v ↔
  ∃ r, objects db !! (m, pk) = Some r ∧ r !! name = Some v.
Proof.
  unfold column_of. destruct (objects db !! (m, pk)) as [r|]; simpl.
  - split; [eauto|]. by intros (? & [= <-] & ?).
  - split; [done|]. by intros (? & ? & ?).
Qed.

Lemma column_of_stored db m pk name v :
  column_of db m pk name = Some v → stored db m pk.
Proof. rewrite column_of_Some. intros (r & ? & _). by exists r. Qed.

Lemma refs_to_intro db od m pk f to pk' :
  (m, f, to, od) ∈ relations →
  column_of db m pk f = Some (VRef pk') →
  refs_to db od (to, pk') (m, pk).
Proof.
  intros Hin (r & Hr & Hf)%column_of_Some. by exists r, f.
Qed.

(** The outcome of a deletion, in terms of the cascade closure. *)
Lemma delete_protected db m pk y x :
  stored db m pk → cascades db (m, pk) y → refs_to db PROTECT y x →
  delete m pk db = (db, Err ProtectedError).
Proof.
  intros [r Hr] Hc Hp. unfold delete. rewrite Hr. simpl.
  case_decide as HE; [|done]. exfalso.
  assert (x ∈ related_objects db PROTECT (collect db {[(m, pk)]})) as Hx.
  { apply elem_of_related_objects. exists y. split; [|done].
    eapply collect_complete; [|done]. set_solver. }
  rewrite HE in Hx. set_solver.
Qed.

Lemma delete_cascade db m pk :
  stored db m pk →
  (∀ y x, cascades db (m, pk) y → ¬ refs_to db PROTECT y x) →
  delete m pk db = (remove_objects (collect db {[(m, pk)]}) db, Deleted).
Proof.
  intros [r Hr] Hnp. unfold delete. rewrite Hr. simpl.
  case_decide as HE; [done|]. exfalso. apply HE.
  apply set_eq. intros x. split; [|set_solver].
  intros (y & Hy & Hp)%elem_of_related_objects.
  apply elem_of_collect in Hy as (x0 & ->%elem_of_singleton & Hc).
  exfalso. by eapply Hnp.
Qed.

Lemma stored_after_delete db m pk m' pk' :
  stored (remove_objects (collect db {[(m, pk)]}) db) m' pk'
  ↔ stored db m' pk' ∧ ¬ cascades db (m, pk) (m', pk').
Proof.
  rewrite stored_remove_objects, elem_of_collect.
  split; intros [? Hn]; (split; [done|]); intros Hc; apply Hn.
  - exists (m, pk). split; [set_solver|done].
  - by destruct Hc as (? & ->%elem_of_singleton & ?).
Qed.

(** ** Facts read off the schema *)

Ltac in_relations := apply (bool_decide_unpack _); vm_compute; exact I.

(** Case analysis on a relation of the schema. *)
Ltac relation_cases H :=
  apply list_elem_of_In in H; vm_compute in H;
  repeat (destruct H as [H|H]; [try (simplify_eq) | ]);
  try (exfalso; exact H).

Lemma protect_relation m f to :
  (m, f, to, PROTECT) ∈ relations → m = "Project" ∧ f = "leader" ∧ to = "User".
Proof. intros H. relation_cases H. done. Qed.

Lemma user_refers_to_nothing f to od : ("User", f, to, od) ∉ relations.
Proof. intros H. relation_cases H. Qed.

Lemma cascades_models T db x z :
  cascade_closed T = true → x.1 ∈ T → cascades db x z → z.1 ∈ T.
Proof.
  intros HT Hx. induction 1 as [|y z _ IH (r & f & _ & Hin & _)]; [done|].
  unfold cascade_closed in HT. rewrite forallb_forall in HT.
  apply list_elem_of_In, HT in Hin. cbn [fst snd] in Hin.
  rewrite (bool_decide_eq_true_2 (CASCADE = CASCADE)) in Hin by done.
  rewrite (bool_decide_eq_true_2 _ IH) in Hin.
  by apply bool_decide_eq_true in Hin.
Qed.

(** Only the seed of a collection can be a user: no column of [User]
    refers to anything. *)
Lemma cascades_user db x y : cascades db x y → y.1 = "User" → y = x.
Proof.
  destruct 1 as [|y z _ (r & f & _ & Hin & _)]; [done|].
  intros Hz. rewrite Hz in Hin. exfalso. by eapply user_refers_to_nothing.
Qed.

(** A protected reference can only block the deletion of a user. *)
Lemma no_user_no_protect T db m pk :
  cascade_closed T = true → m ∈ T → "User" ∉ T →
  ∀ y x, cascades db (m, pk) y → ¬ refs_to db PROTECT y x.
Proof.
  intros HT Hm HU y x Hc (r & f & _ & Hin & _).
  apply protect_relation in Hin as (_ & _ & Hy).
  apply HU. rewrite <- Hy.
  eapply cascades_models; [exact HT| |exact Hc]. exact Hm.
Qed.

Lemma leader_protects db u y x :
  cascades db ("User", u) y → refs_to db PROTECT y x →
  ∃ p, column_of db "Project" p "leader" = Some (VRef u).
Proof.
  intros Hc (r & f & Hr & Hin & Hf).
  destruct x as [m p]. simpl in *.
  apply protect_relation in Hin as (-> & -> & Hy).
  apply cascades_user in Hc; [|done]. subst y. simpl in *.
  exists p. apply column_of_Some. eauto.
Qed.

Lemma descends_cascades db a c :
  descends db a c → cascades db ("Conversation", a) ("Conversation", c).
Proof.
  induction 1 as [|p c _ IH _ Hp]; [constructor|].
  eapply cascades_step; [exact IH|].
  eapply refs_to_intro; [|exact Hp]. in_relations.
Qed.

Lemma thread_cascades db x a d :
  cascades db x ("Conversation", a) → descends db a d →
  cascades db x ("Conversation", d).
Proof.
  intros Hx. induction 1 as [|p c _ IH _ Hp]; [done|].
  eapply cascades_step; [exact IH|].
  eapply refs_to_intro; [|exact Hp]. in_relations.
Qed.

(** ** Deleting a club *)

(** C1. Deleting a club succeeds and removes the club, every role, every
    membership request, the channel and every feedback of the club, and
    every post and conversation of the club's channel. *)
Theorem club_delete_cascades db c :
  stored db "Club" c →
  ∃ db', delete "Club" c db = (db', Deleted)
    ∧ ¬ stored db' "Club" c
    ∧ (∀ pk, column_of db "ClubRole" pk "club" = Some (VRef c) →
         ¬ stored db' "ClubRole" pk)
    ∧ (∀ pk, column_of db "ClubMembershipRequest" pk "club" = Some (VRef c) →
         ¬ stored db' "ClubMembershipRequest" pk)
    ∧ (∀ pk, column_of db "Channel" pk "club" = Some (VRef c) →
         ¬ stored db' "Channel" pk)
    ∧ (∀ pk, column_of db "Feedback" pk "club" = Some (VRef c) →
         ¬ stored db' "Feedback" pk)
    ∧ (∀ ch pk, column_of db "Channel" ch "club" = Some (VRef c) →
         column_of db "Post" pk "channel" = Some (VRef ch) →
         ¬ stored db' "Post" pk)
    ∧ (∀ ch pk, column_of db "Channel" ch "club" = Some (VRef c) →
         column_of db "Conversation" pk "channel" = Some (VRef ch) →
         ¬ stored db' "Conversation" pk).
Proof.
  intros Hc. eexists. split.
  { apply delete_cascade; [done|].
    apply (no_user_no_protect
             ["Club"; "ClubMembershipRequest"; "ClubRole"; "ClubMembership";
              "ClubProject"; "Channel"; "ChannelSubscription"; "Post";
              "Conversation"; "Feedback"; "FeedbackReply"]);
      [reflexivity|set_solver|].
    intros HU. apply list_elem_of_In in HU. vm_compute in HU. intuition discriminate. }
  assert (Hone : ∀ m f pk, (m, f, "Club", CASCADE) ∈ relations →
            column_of db m pk f = Some (VRef c) →
            cascades db ("Club", c) (m, pk)).
  { intros m f pk Hin Hcol. eapply cascades_step; [constructor|].
    by eapply refs_to_intro. }
  assert (Htwo : ∀ m f ch pk, (m, f, "Channel", CASCADE) ∈ relations →
            column_of db "Channel" ch "club" = Some (VRef c) →
            column_of db m pk f = Some (VRef ch) →
            cascades db ("Club", c) (m, pk)).
  { intros m f ch pk Hin Hch Hcol. eapply cascades_step.
    - apply (Hone "Channel" "club"); [in_relations|done].
    - by eapply refs_to_intro. }
  repeat split.
  - rewrite stored_after_delete. intros [_ Hn]. apply Hn. constructor.
  - intros pk H. rewrite stored_after_delete. intros [_ Hn]. apply Hn.
    apply (Hone _ "club"); [in_relations|done].
  - intros pk H. rewrite stored_after_delete. intros [_ Hn]. apply Hn.
    apply (Hone _ "club"); [in_relations|done].
  - intros pk H. rewrite stored_after_delete. intros [_ Hn]. apply Hn.
    apply (Hone _ "club"); [in_relations|done].
  - intros pk H. rewrite stored_after_delete. intros [_ Hn]. apply Hn.
    apply (Hone _ "club"); [in_relations|done].
  - intros ch pk H1 H2. rewrite stored_after_delete. intros [_ Hn]. apply Hn.
    apply (Htwo _ "channel" ch); [in_relations|done..].
  - intros ch pk H1 H2. rewrite stored_after_delete. intros [_ Hn]. apply Hn.
    apply (Htwo _ "channel" ch); [in_relations|done..].
Qed.

(** ** Deleting a user who leads a project *)

(** C3. Deleting a user who is the leader of some project fails with
    [ProtectedError], and the database returned is the one given: none of
    the cascades of the user's other references is applied. *)
Theorem leader_delete_protected db u p :
  stored db "User" u →
  column_of db "Project" p "leader" = Some (VRef u) →
  delete "User" u db = (db, Err ProtectedError).
Proof.
  intros Hu Hp. eapply delete_protected; [done|constructor|].
  eapply refs_to_intro; [|exact Hp]. in_relations.
Qed.

(** ** Deleting a conversation *)

Lemma conversation_delete_ok db c :
  stored db "Conversation" c →
  delete "Conversation" c db
  = (remove_objects (collect db {[("Conversation", c)]}) db, Deleted).
Proof.
  intros Hc. apply delete_cascade; [done|].
  apply (no_user_no_protect ["Conversation"]); [reflexivity|set_solver|].
  intros HU. apply list_elem_of_In in HU. vm_compute in HU. intuition discriminate.
Qed.

(** C4. Deleting a conversation succeeds and removes every conversation
    whose parent it is and, transitively, every conversation below it in
    the thread. *)
Theorem conversation_delete_cascades db c :
  stored db "Conversation" c →
  ∃ db', delete "Conversation" c db = (db', Deleted)
    ∧ (∀ d, column_of db "Conversation" d "parent" = Some (VRef c) →
         ¬ stored db' "Conversation" d)
    ∧ (∀ d, descends db c d → ¬ stored db' "Conversation" d).
Proof.
  intros Hc. eexists. split; [by apply conversation_delete_ok|].
  assert (Hd : ∀ d, descends db c d →
            ¬ stored (remove_objects (collect db {[("Conversation", c)]}) db)
                "Conversation" d).
  { intros d Hd. rewrite stored_after_delete. intros [_ Hn]. apply Hn.
    by apply descends_cascades. }
  split; [|done].
  intros d Hp. apply Hd. eapply descends_child; [constructor| |done].
  by eapply column_of_stored.
Qed.

(** ** Deleting a user *)

Lemma user_delete_ok db u :
  stored db "User" u → leads_no_project db u →
  delete "User" u db = (remove_objects (collect db {[("User", u)]}) db, Deleted).
Proof.
  intros Hu Hl. apply delete_cascade; [done|].
  intros y x Hc Hp. destruct (leader_protects _ _ _ _ Hc Hp) as [p Hlead].
  by apply (Hl p).
Qed.

(** C9. Deleting a user who leads no project removes, with every
    conversation the user wrote, every conversation below it in the thread,
    whoever wrote it; every other user stays. *)
Theorem user_delete_removes_threads db u :
  stored db "User" u → leads_no_project db u →
  ∃ db', delete "User" u db = (db', Deleted)
    ∧ (∀ a d, column_of db "Conversation" a "author" = Some (VRef u) →
         descends db a d → ¬ stored db' "Conversation" d)
    ∧ (∀ v, v ≠ u → stored db "User" v → stored db' "User" v).
Proof.
  intros Hu Hl. eexists. split; [by apply user_delete_ok|]. split.
  - intros a d Ha Hd.
    assert (cascades db ("User", u) ("Conversation", d)) as Hcd.
    { eapply thread_cascades; [|exact Hd]. eapply cascades_step; [constructor|].
      eapply refs_to_intro; [|exact Ha]. in_relations. }
    rewrite stored_after_delete. by intros [_ Hn].
  - intros v Hv Hs. rewrite stored_after_delete. split; [done|].
    intros Hc. apply cascades_user in Hc; [|done]. congruence.
Qed.

(** ** Deleting a project *)

Lemma project_cascades db p z :
  cascades db ("Project", p) z ↔
  z = ("Project", p)
  ∨ (z.1 = "ProjectMembership" ∨ z.1 = "ClubProject")
    ∧ column_of db z.1 z.2 "project" = Some (VRef p).
Proof.
  split.
  - induction 1 as [|[ym ypk] [zm zpk] _ IH (r & f & Hr & Hin & Hf)]; [by left|].
    right. simpl in *.
    assert (column_of db zm zpk f = Some (VRef ypk)) as Hcol
      by (apply column_of_Some; eauto).
    clear Hr Hf.
    destruct IH as [[= -> ->]|[[-> | ->] _]]; relation_cases Hin; eauto.
  - intros [->|[Hm Hcol]]; [constructor|]. destruct z as [zm zpk]. simpl in *.
    eapply cascades_step; [constructor|].
    eapply refs_to_intro; [|exact Hcol]. destruct Hm as [-> | ->]; in_relations.
Qed.

(** C10. Deleting a project succeeds; of the two join tables it removes
    exactly the rows whose project it is and leaves the others as they
    were; every user row and every club row is left as it was. *)
Theorem project_delete_frame db p :
  stored db "Project" p →
  ∃ db', delete "Project" p db = (db', Deleted)
    ∧ (∀ m pk, m = "ProjectMembership" ∨ m = "ClubProject" →
         objects db' !! (m, pk)
         = if decide (column_of db m pk "project" = Some (VRef p))
           then None else objects db !! (m, pk))
    ∧ (∀ u, objects db' !! ("User", u) = objects db !! ("User", u))
    ∧ (∀ c, objects db' !! ("Club", c) = objects db !! ("Club", c)).
Proof.
  intros Hp. eexists. split.
  { apply delete_cascade; [done|].
    apply (no_user_no_protect ["Project"; "ProjectMembership"; "ClubProject"]);
      [reflexivity|set_solver|].
    intros HU. apply list_elem_of_In in HU. vm_compute in HU. intuition discriminate. }
  repeat split.
  - intros m pk Hm. rewrite lookup_remove_objects.
    destruct (decide (column_of db m pk "project" = Some (VRef p))) as [Hc|Hc].
    + rewrite decide_True; [done|]. apply elem_of_collect.
      exists ("Project", p). split; [set_solver|]. apply project_cascades. by right.
    + rewrite decide_False; [done|].
      intros (x & ->%elem_of_singleton & Hx)%elem_of_collect.
      apply project_cascades in Hx as [[= -> ->]|[_ Hx]]; [|done].
      destruct Hm; discriminate.
  - intros u. rewrite lookup_remove_objects. rewrite decide_False; [done|].
    intros (x & ->%elem_of_singleton & Hx)%elem_of_collect.
    apply project_cascades in Hx as [[=]|[[[=]|[=]] _]].
  - intros c. rewrite lookup_remove_objects. rewrite decide_False; [done|].
    intros (x & ->%elem_of_singleton & Hx)%elem_of_collect.
    apply project_cascades in Hx as [[=]|[[[=]|[=]] _]].
Qed.

(** ** What the deletion of a user removes *)

Lemma user_cascades db u z :
  cascades db ("User", u) z →
  z = ("User", u)
  ∨ owned db u z.1 z.2
  ∨ (z.1 = "Conversation"
     ∧ ∃ a, owned db u "Conversation" a ∧ descends db a z.2)
  ∨ z.1 = "FeedbackReply".
Proof.
  induction 1 as [|[ym ypk] [zm zpk] _ IH Hr]; [by left|]. right.
  destruct IH as [[= -> ->]|[Hown|[[Hy (a & Ha & Hd)]|Hy]]]; simpl in *.
  - by left.
  - destruct Hr as (r & f & Hr & Hin & Hf).
    assert (column_of db zm zpk f = Some (VRef ypk)) as Hcol
      by (apply column_of_Some; eauto).
    destruct Hown as (r' & f' & Hr' & Hin' & Hf'). simpl in *.
    relation_cases Hin'; relation_cases Hin.
    + right. left. split; [done|]. exists ypk. split.
      * exists r', "author". split_and!; [done|in_relations|done].
      * eapply descends_child; [constructor|by exists r|done].
    + by right; right.
  - destruct Hr as (r & f & Hr & Hin & Hf). subst ym.
    assert (column_of db zm zpk f = Some (VRef ypk)) as Hcol
      by (apply column_of_Some; eauto).
    relation_cases Hin. right. left. split; [done|]. exists a. split; [done|].
    eapply descends_child; [exact Hd|by exists r|done].
  - destruct Hr as (r & f & Hr & Hin & Hf). subst ym. relation_cases Hin.
Qed.

Lemma leads_no_project_check db u :
  map_Forall
    (λ (x : obj) (r : row), ¬ (x.1 = "Project" ∧ r !! "leader" = Some (VRef u)))
    (objects db) →
  leads_no_project db u.
Proof.
  intros H p (r & Hr & Hl)%column_of_Some. by apply (H _ _ Hr).
Qed.

Lemma owned_column db u m pk f :
  (m, f, "User", CASCADE) ∈ relations →
  column_of db m pk f = Some (VRef u) → owned db u m pk.
Proof. intros. by eapply refs_to_intro. Qed.

(** C2, as amended. Deleting a user who leads no project removes, from the
    tables of the rows a user owns or writes, the rows of that user and the
    conversations below a conversation of that user in a thread, whoever
    wrote them, and no other row; in particular it removes no post, a post
    having no column that refers to a user. *)
Theorem user_delete_removes_exactly db u :
  stored db "User" u → leads_no_project db u →
  ∃ db', delete "User" u db = (db', Deleted)
    ∧ (∀ m pk, m ∈ user_tables → stored db m pk →
         (¬ stored db' m pk ↔
          owned db u m pk
          ∨ (m = "Conversation"
             ∧ ∃ a, owned db u "Conversation" a ∧ descends db a pk)))
    ∧ (∀ pk, stored db "Post" pk → stored db' "Post" pk).
Proof.
  intros Hu Hl. eexists. split; [by apply user_delete_ok|].
  assert (Hiff : ∀ m pk, m ∈ user_tables → stored db m pk →
            (cascades db ("User", u) (m, pk) ↔
             owned db u m pk
             ∨ (m = "Conversation"
                ∧ ∃ a, owned db u "Conversation" a ∧ descends db a pk))).
  { intros m pk Hm Hs. split.
    - intros Hc. apply user_cascades in Hc as [[= -> ->]|[?|[?|Hc]]]; simpl in *.
      + apply list_elem_of_In in Hm. vm_compute in Hm. intuition discriminate.
      + by left.
      + by right.
      + subst m. apply list_elem_of_In in Hm. vm_compute in Hm. intuition discriminate.
    - intros [Ho|(-> & a & Ha & Hd)].
      + eapply cascades_step; [constructor|done].
      + eapply thread_cascades; [|exact Hd].
        eapply cascades_step; [constructor|done]. }
  split.
  - intros m pk Hm Hs. rewrite <- (Hiff m pk Hm Hs), stored_remove_objects.
    split.
    + intros Hn.
      destruct (decide ((m, pk) ∈ collect db {[("User", u)]})) as [Hin|Hnin];
        [|by destruct Hn].
      by apply elem_of_collect in Hin as (x & ->%elem_of_singleton & ?).
    + intros Hc [_ Hn]. apply Hn, elem_of_collect.
      exists ("User", u). split; [set_solver|done].
  - intros pk Hs. rewrite stored_after_delete. split; [done|].
    intros [[=]|[Ho|[[[=] _]|[=]]]]%user_cascades.
    destruct Ho as (r & f & _ & Hin & _). simpl in Hin. relation_cases Hin.
Qed.

(** ** The example databases *)

(** Closed decidable facts are settled by evaluation. *)
Ltac decided := apply (bool_decide_unpack _); vm_compute; exact I.
Ltac stored_now := unfold stored; decided.

Lemma thread_db_no_leader u : leads_no_project thread_db u.
Proof. apply leads_no_project_check. decided. Qed.

Lemma club_delete_cascades_witness :
  stored thread_db "Club" 1
  ∧ ∃ db', delete "Club" 1 thread_db = (db', Deleted)
      ∧ ¬ stored db' "Channel" 1
      ∧ ¬ stored db' "Conversation" 1 ∧ ¬ stored db' "Conversation" 2.
Proof.
  assert (stored thread_db "Club" 1) as Hs by stored_now.
  split; [exact Hs|].
  destruct (club_delete_cascades thread_db 1 Hs)
    as (db' & Hdel & _ & _ & _ & Hch & _ & _ & Hconv).
  exists db'. split; [exact Hdel|]. split.
  - apply Hch. decided.
  - split; apply (Hconv 1); decided.
Defined.

Lemma leader_delete_protected_witness :
  stored project_db "User" 2
  ∧ column_of project_db "Project" 1 "leader" = Some (VRef 2)
  ∧ delete "User" 2 project_db = (project_db, Err ProtectedError).
Proof.
  assert (stored project_db "User" 2) as Hs by stored_now.
  assert (column_of project_db "Project" 1 "leader" = Some (VRef 2)) as Hl
    by decided.
  split; [exact Hs|]. split; [exact Hl|].
  exact (leader_delete_protected project_db 2 1 Hs Hl).
Defined.

Lemma conversation_delete_cascades_witness :
  stored thread_db "Conversation" 1
  ∧ ∃ db', delete "Conversation" 1 thread_db = (db', Deleted)
      ∧ ¬ stored db' "Conversation" 2.
Proof.
  assert (stored thread_db "Conversation" 1) as Hs by stored_now.
  split; [exact Hs|].
  destruct (conversation_delete_cascades thread_db 1 Hs) as (db' & Hdel & Hch & _).
  exists db'. split; [exact Hdel|]. apply Hch. decided.
Defined.

(** In the witness the conversation removed with the first user's was
    written by the second user, who stays. *)
Lemma user_delete_removes_threads_witness :
  stored thread_db "User" 1 ∧ leads_no_project thread_db 1
  ∧ column_of thread_db "Conversation" 2 "author" = Some (VRef 2)
  ∧ ∃ db', delete "User" 1 thread_db = (db', Deleted)
      ∧ ¬ stored db' "Conversation" 2 ∧ stored db' "User" 2.
Proof.
  assert (stored thread_db "User" 1) as Hs by stored_now.
  split; [exact Hs|]. split; [apply thread_db_no_leader|]. split; [decided|].
  destruct (user_delete_removes_threads thread_db 1 Hs (thread_db_no_leader 1))
    as (db' & Hdel & Hth & Hus).
  exists db'. split; [exact Hdel|]. split.
  - apply (Hth 1 2); [decided|].
    eapply descends_child; [constructor|stored_now|decided].
  - apply Hus; [discriminate|stored_now].
Defined.

Lemma project_delete_frame_witness :
  stored project_db "Project" 1
  ∧ ∃ db', delete "Project" 1 project_db = (db', Deleted)
      ∧ objects db' !! ("ProjectMembership", 1) = None
      ∧ objects db' !! ("User", 2) = objects project_db !! ("User", 2).
Proof.
  assert (stored project_db "Project" 1) as Hs by stored_now.
  split; [exact Hs|].
  destruct (project_delete_frame project_db 1 Hs) as (db' & Hdel & Hj & Hu & _).
  exists db'. split; [exact Hdel|]. split; [|apply Hu].
  rewrite Hj by (by left). rewrite decide_True; [done|decided].
Defined.

Lemma user_delete_removes_exactly_witness :
  stored thread_db "User" 1 ∧ leads_no_project thread_db 1
  ∧ ∃ db', delete "User" 1 thread_db = (db', Deleted)
      ∧ ¬ stored db' "Conversation" 2.
Proof.
  assert (stored thread_db "User" 1) as Hs by stored_now.
  split; [exact Hs|]. split; [apply thread_db_no_leader|].
  destruct (user_delete_removes_exactly thread_db 1 Hs (thread_db_no_leader 1))
    as (db' & Hdel & Hex & _).
  exists db'. split; [exact Hdel|].
  apply (Hex "Conversation" 2); [decided|stored_now|].
  right. split; [done|]. exists 1. split.
  - apply (owned_column _ _ _ _ "author"); [in_relations|decided].
  - eapply descends_child; [constructor|stored_now|decided].
Defined.

Lemma conversation_user_column f :
  ("Conversation", f, "User", CASCADE) ∈ relations → f = "author".
Proof. intros H. relation_cases H. done. Qed.

(** C2, as stated, fails: deleting the first user of [thread_db] removes the
    answer of the second user, a row the first user neither owns nor
    wrote. *)
Lemma user_delete_removes_other_rows :
  stored thread_db "User" 1 ∧ leads_no_project thread_db 1
  ∧ ¬ user_delete_removes_own_rows_only thread_db 1.
Proof.
  split; [stored_now|]. split; [apply thread_db_no_leader|].
  intros (db' & Hdel & Hown).
  assert (db' = (delete "User" 1 thread_db).1) as -> by (by rewrite Hdel).
  assert (¬ stored (delete "User" 1 thread_db).1 "Conversation" 2) as Hgone
    by stored_now.
  apply (Hown "Conversation" 2) in Hgone; [|decided|stored_now].
  destruct Hgone as (r & f & Hr & Hin & Hf). cbn [fst snd] in Hr, Hin, Hf.
  apply conversation_user_column in Hin as ->.
  assert (column_of thread_db "Conversation" 2 "author" = Some (VRef 1)) as Hcol
    by (apply column_of_Some; eauto).
  clear Hr Hf. vm_compute in Hcol. discriminate.
Qed.

(** ** Creation and update *)

Lemma get_model_Some m M : get_model m = Some M → M ∈ schema ∧ m_name M = m.
Proof.
  intros [Hin Hn%bool_decide_eq_true]%find_some. split; [|done].
  by apply list_elem_of_In.
Qed.

Lemma get_field_Some M name f :
  get_field M name = Some f → f ∈ m_fields M ∧ f_name f = name.
Proof.
  intros [Hin Hn%bool_decide_eq_true]%find_some. split; [|done].
  by apply list_elem_of_In.
Qed.

Lemma schema_NoDup m M : get_model m = Some M → NoDup (f_name <$> m_fields M).
Proof.
  intros [Hin _]%get_model_Some. revert M Hin. apply Forall_forall.
  apply (bool_decide_unpack _). vm_compute. exact I.
Qed.

Lemma lookup_instance M kw f :
  NoDup (f_name <$> m_fields M) → f ∈ m_fields M →
  instance M kw !! f_name f = Some (default (get_default f) (kw !! f_name f)).
Proof.
  intros Hnd Hf. unfold instance. apply elem_of_list_to_map.
  - by rewrite <- list_fmap_compose.
  - apply list_elem_of_fmap. by exists f.
Qed.

Lemma lookup_pre_save_auto now fs inst f :
  f ∈ fs → auto_now_add_of f = true →
  pre_save now fs inst !! f_name f = Some (VTime now).
Proof.
  induction fs as [|g fs IH]; simpl; [by intros ?%elem_of_nil|].
  intros [->|Hf]%elem_of_cons Ha.
  - by rewrite Ha, lookup_insert_eq.
  - destruct (auto_now_add_of g); [|by apply IH].
    destruct (decide (f_name g = f_name f)) as [->|Hne].
    + by rewrite lookup_insert_eq.
    + rewrite lookup_insert_ne by done. by apply IH.
Qed.

Lemma lookup_pre_save_other now fs inst name :
  (∀ f, f ∈ fs → auto_now_add_of f = true → f_name f ≠ name) →
  pre_save now fs inst !! name = inst !! name.
Proof.
  induction fs as [|g fs IH]; simpl; [done|]. intros H.
  assert (pre_save now fs inst !! name = inst !! name) as IH'
    by (apply IH; intros f Hf; apply H; by right).
  destruct (auto_now_add_of g) eqn:Ha; [|done].
  rewrite lookup_insert_ne; [done|]. apply H; [by left|done].
Qed.

Lemma clean_fields_None db fs inst :
  clean_fields db fs inst = None ↔
  ∀ f, f ∈ fs → clean_field db f (getattr inst (f_name f)) = None.
Proof.
  induction fs as [|f fs IH]; simpl.
  - split; [|done]. by intros _ ? ?%elem_of_nil.
  - destruct (clean_field db f (getattr inst (f_name f))) eqn:E.
    + split; [done|]. intros H. specialize (H f). rewrite E in H.
      discriminate H. by left.
    + rewrite IH. split.
      * intros H g [->|?]%elem_of_cons; [done|by apply H].
      * intros H g Hg. apply H. by right.
Qed.

Lemma takenb_spec db m self name v :
  takenb db m self name v = true ↔ taken db m self name v.
Proof.
  unfold takenb, taken. rewrite negb_true_iff, bool_decide_eq_false.
  rewrite map_not_Forall by apply _. split.
  - intros ([m' pk] & r & Hr & Hc). simpl in Hc.
    assert (m' = m ∧ Some pk ≠ self ∧ r !! name = Some v) as (-> & ? & ?).
    { destruct (decide (m' = m)), (decide (Some pk = self)),
        (decide (r !! name = Some v)); try done; exfalso; apply Hc; tauto. }
    eauto.
  - intros (pk & r & Hr & ? & ?). exists (m, pk), r. split; [done|]. simpl. tauto.
Qed.

Lemma validate_unique_None db m self fs inst :
  validate_unique db m self fs inst = None ↔
  ∀ f, f ∈ fs → unique f = true → getattr inst (f_name f) ≠ VNone →
       ¬ taken db m self (f_name f) (getattr inst (f_name f)).
Proof.
  induction fs as [|f fs IH]; simpl.
  - split; [|done]. by intros _ ? ?%elem_of_nil.
  - destruct (unique f) eqn:Hu; simpl.
    + destruct (bool_decide (getattr inst (f_name f) = VNone)) eqn:Hn; simpl.
      * apply bool_decide_eq_true in Hn. rewrite IH. split.
        -- intros H g [->|?]%elem_of_cons; [done|by apply H].
        -- intros H g Hg. apply H. by right.
      * apply bool_decide_eq_false in Hn.
        destruct (takenb db m self (f_name f) (getattr inst (f_name f))) eqn:Ht.
        -- split; [done|]. intros H. exfalso.
           apply (H f); [by left|done|done|by apply takenb_spec].
        -- rewrite IH. split.
           ++ intros H g [->|?]%elem_of_cons; [|by apply H].
              intros _ _ Hk%takenb_spec. congruence.
           ++ intros H g Hg. apply H. by right.
    + rewrite IH. split.
      * intros H g [->|?]%elem_of_cons; [congruence|by apply H].
      * intros H g Hg. apply H. by right.
Qed.

Lemma full_clean_None db M self inst :
  full_clean db M self inst = None ↔
  (∀ f, f ∈ m_fields M → clean_field db f (getattr inst (f_name f)) = None)
  ∧ (∀ f, f ∈ m_fields M → unique f = true →
        getattr inst (f_name f) ≠ VNone →
        ¬ taken db (m_name M) self (f_name f) (getattr inst (f_name f))).
Proof.
  unfold full_clean. rewrite <- clean_fields_None, <- validate_unique_None.
  destruct (clean_fields db (m_fields M) inst); [|tauto].
  split; [done|]. by intros [? _].
Qed.

(** A successful creation, taken apart. *)
Lemma create_Created now m kw db db' pk :
  create now m kw db = (db', Created pk) →
  ∃ M, get_model m = Some M
    ∧ full_clean db M None (instance M kw) = None
    ∧ pk = next_pk db m
    ∧ objects db !! (m, pk) = None
    ∧ db' = mkDB (<[(m, pk) := pre_save now (m_fields M) (instance M kw)]> (objects db))
                 (<[m := pk + 1]> (sequences db)).
Proof.
  unfold create. destruct (get_model m) as [M|]; [|done].
  destruct (negb _); [done|].
  destruct (full_clean db M None (instance M kw)) eqn:Hfc; [done|].
  destruct (not_null_ok _ _); [|done]. simpl.
  case_bool_decide as Hfresh; [|done]. simpl.
  intros [= <- <-]. exists M. done.
Qed.

Lemma update_Updated m pk name v db db' :
  update m pk name v db = (db', Updated) →
  ∃ M r f, get_model m = Some M
    ∧ objects db !! (m, pk) = Some r
    ∧ get_field M name = Some f ∧ editable f = true
    ∧ full_clean db M (Some pk) (<[name := v]> r) = None
    ∧ db' = mkDB (<[(m, pk) := <[name := v]> r]> (objects db)) (sequences db).
Proof.
  unfold update. destruct (get_model m) as [M|]; [|done].
  destruct (objects db !! (m, pk)) as [r|]; [|done].
  destruct (get_field M name) as [f|] eqn:Hgf; [|done].
  destruct (editable f) eqn:He; [|done]. simpl.
  destruct (full_clean db M (Some pk) (<[name:=v]> r)) eqn:Hfc; [done|].
  destruct (not_null_ok _ _); [|done].
  intros [= <-]. exists M, r, f. done.
Qed.

(** An operation either fails and leaves the database as it was, or
    succeeds with the outcome of its kind. *)
Lemma create_outcome now m kw db :
  (∃ e, create now m kw db = (db, Err e))
  ∨ (∃ db' pk, create now m kw db = (db', Created pk)).
Proof.
  unfold create. destruct (get_model m) as [M|]; [|eauto].
  destruct (negb _); [eauto|].
  destruct (full_clean db M None (instance M kw)); [eauto|].
  destruct (_ && _); eauto.
Qed.

Lemma update_outcome m pk name v db :
  (∃ e, update m pk name v db = (db, Err e))
  ∨ (∃ db', update m pk name v db = (db', Updated)).
Proof.
  unfold update. destruct (get_model m) as [M|]; [|eauto].
  destruct (objects db !! (m, pk)) as [r|]; [|eauto].
  destruct (get_field M name) as [f|]; [|eauto].
  destruct (negb _); [eauto|].
  destruct (full_clean _ _ _ _); [eauto|].
  destruct (not_null_ok _ _); eauto.
Qed.

Lemma delete_outcome m pk db :
  (∃ e, delete m pk db = (db, Err e))
  ∨ delete m pk db = (remove_objects (collect db {[(m, pk)]}) db, Deleted).
Proof.
  unfold delete. destruct (objects db !! (m, pk)); [|eauto].
  simpl. case_decide; eauto.
Qed.

Lemma exec_failure o db e : (exec o db).2 = Err e → (exec o db).1 = db.
Proof.
  destruct o as [now m kw|m pk name v|m pk]; simpl.
  - destruct (create_outcome now m kw db) as [[e' ->]|(db' & pk & ->)]; done.
  - destruct (update_outcome m pk name v db) as [[e' ->]|(db' & ->)]; done.
  - destruct (delete_outcome m pk db) as [[e' ->]| ->]; done.
Qed.

(** ** Invariants *)

Lemma reachable_empty : reachable empty_db.
Proof. by exists []. Qed.

Lemma reachable_exec db o : reachable db → reachable (exec o db).1.
Proof.
  intros [ops ->]. exists (ops ++ [o])%list. unfold run. by rewrite foldl_app.
Qed.

Lemma reachable_run db ops : reachable db → reachable (run ops db).
Proof.
  revert db. induction ops as [|o ops IH]; intros db Hr; [done|].
  simpl. by apply IH, reachable_exec.
Qed.


(** What each kind of operation does to the stored rows. *)
Lemma exec_cases o db :
  (exec o db).1 = db
  ∨ (∃ now m kw M pk,
       o = Create now m kw ∧ get_model m = Some M
       ∧ full_clean db M None (instance M kw) = None
       ∧ pk = next_pk db m ∧ objects db !! (m, pk) = None
       ∧ (exec o db).1
         = mkDB (<[(m, pk) := pre_save now (m_fields M) (instance M kw)]> (objects db))
                (<[m := pk + 1]> (sequences db)))
  ∨ (∃ m pk name v M r f,
       o = Update m pk name v ∧ get_model m = Some M
       ∧ objects db !! (m, pk) = Some r
       ∧ get_field M name = Some f ∧ editable f = true
       ∧ full_clean db M (Some pk) (<[name := v]> r) = None
       ∧ (exec o db).1
         = mkDB (<[(m, pk) := <[name := v]> r]> (objects db)) (sequences db))
  ∨ (∃ m pk,
       o = Delete m pk
       ∧ (exec o db).1 = remove_objects (collect db {[(m, pk)]}) db).
Proof.
  destruct o as [now m kw|m pk name v|m pk]; simpl.
  - destruct (create_outcome now m kw db) as [[e He]|(db' & pk & He)];
      rewrite He; [by left|].
    right; left. apply create_Created in He as (M & ? & ? & ? & ? & ?).
    exists now, m, kw, M, pk. done.
  - destruct (update_outcome m pk name v db) as [[e He]|(db' & He)];
      rewrite He; [by left|].
    right; right; left.
    apply update_Updated in He as (M & r & f & ? & ? & ? & ? & ? & ?).
    exists m, pk, name, v, M, r, f. done.
  - destruct (delete_outcome m pk db) as [[e He]|He]; rewrite He; [by left|].
    right; right; right. by exists m, pk.
Qed.

Lemma next_pk_insert ob db m pk m' :
  next_pk (mkDB ob (<[m := pk]> (sequences db))) m'
  = if decide (m = m') then pk else next_pk db m'.
Proof.
  unfold next_pk. simpl. case_decide as Hm.
  - subst. by rewrite lookup_insert_eq.
  - by rewrite lookup_insert_ne.
Qed.


Lemma exec_next_pk_mono db o m : next_pk db m ≤ next_pk (exec o db).1 m.
Proof.
  destruct (exec_cases o db)
    as [->|[(now & m0 & kw & M & pk & _ & _ & _ & -> & Hfresh & ->)
           |[(m0 & pk & name & v & M & r & f & _ & _ & Hr & _ & _ & _ & ->)
            |(m0 & pk & _ & ->)]]]; [done|..]; try done.
  rewrite next_pk_insert. case_decide; [subst; lia|done].
Qed.

Lemma fields_same_name (fs : list field) f g :
  NoDup (f_name <$> fs) → f ∈ fs → g ∈ fs → f_name f = f_name g → f = g.
Proof.
  induction fs as [|h fs IH]; simpl; [by intros _ ?%elem_of_nil|].
  intros [Hh Hnd]%NoDup_cons [->|Hf]%elem_of_cons [->|Hg]%elem_of_cons Heq;
    [done|..|by apply IH].
  - exfalso. apply Hh. rewrite Heq. apply list_elem_of_fmap. by exists g.
  - exfalso. apply Hh. rewrite <- Heq. apply list_elem_of_fmap. by exists f.
Qed.


Lemma lookup_pre_save_keep now fs inst f :
  NoDup (f_name <$> fs) → f ∈ fs → auto_now_add_of f = false →
  pre_save now fs inst !! f_name f = inst !! f_name f.
Proof.
  intros Hnd Hf Ha. apply lookup_pre_save_other. intros g Hg Hga Heq.
  assert (g = f) as -> by by eapply fields_same_name. congruence.
Qed.




Lemma column_of_insert db m pk r m' pk' name sq :
  column_of (mkDB (<[(m, pk) := r]> (objects db)) sq) m' pk' name
  = if decide ((m, pk) = (m', pk')) then r !! name else column_of db m' pk' name.
Proof.
  unfold column_of. simpl. case_decide as Hx.
  - rewrite Hx. by rewrite lookup_insert_eq.
  - by rewrite lookup_insert_ne.
Qed.

Lemma getattr_Some (r : row) name v : r !! name = Some v → getattr r name = v.
Proof. unfold getattr. by intros ->. Qed.





(** ** The columns of a created row *)


(** A created row holds, in an [auto_now_add] column, the time of the
    creation, and in any other column the value supplied or else the
    default of the field. *)
Lemma create_column now m kw db db' pk M name f :
  create now m kw db = (db', Created pk) →
  get_model m = Some M → get_field M name = Some f →
  column_of db' m pk name
  = Some (if auto_now_add_of f then VTime now
          else default (get_default f) (kw !! name)).
Proof.
  intros (M' & HM' & _ & -> & _ & ->)%create_Created HM Hf.
  rewrite HM in HM'. injection HM' as <-.
  rewrite column_of_insert, decide_True by done.
  pose proof (schema_NoDup _ _ HM) as Hnd.
  destruct (get_field_Some _ _ _ Hf) as [Hin <-].
  destruct (auto_now_add_of f) eqn:Ha.
  - by apply lookup_pre_save_auto.
  - rewrite lookup_pre_save_keep by done. by apply lookup_instance.
Qed.

Lemma update_column m pk name v db db' :
  update m pk name v db = (db', Updated) →
  column_of db' m pk name = Some v.
Proof.
  intros (M & r & f & _ & _ & _ & _ & _ & ->)%update_Updated.
  rewrite column_of_insert, decide_True by done. apply lookup_insert_eq.
Qed.

Lemma thread_db_reachable : reachable thread_db.
Proof. apply reachable_run, reachable_empty. Qed.

Lemma feedback_db_reachable : reachable feedback_db.
Proof. apply reachable_run, thread_db_reachable. Qed.

Lemma closed_db_reachable : reachable closed_db.
Proof. apply reachable_run, feedback_db_reachable. Qed.

(** ** Plain writes *)

Lemma get_db_prep_save_None fs inst :
  get_db_prep_save fs inst = None ↔
  ∀ f, f ∈ fs → to_python (f_type f) (getattr inst (f_name f)) = true.
Proof.
  induction fs as [|f fs IH]; simpl.
  - split; [|done]. by intros _ ? ?%elem_of_nil.
  - destruct (to_python (f_type f) (getattr inst (f_name f))) eqn:E.
    + rewrite IH. split.
      * intros H g [->|?]%elem_of_cons; [done|by apply H].
      * intros H g Hg. apply H. by right.
    + split; [done|]. intros H. specialize (H f). rewrite E in H.
      exfalso. assert (false = true) as Hft by (apply H; by left).
      discriminate Hft.
Qed.

Lemma not_null_ok_true fs inst f :
  not_null_ok fs inst = true → f ∈ fs → f_null f = false →
  getattr inst (f_name f) ≠ VNone.
Proof.
  unfold not_null_ok. rewrite forallb_forall. intros H Hf Hn.
  apply list_elem_of_In in Hf. specialize (H f Hf). simpl in H.
  rewrite Hn in H. simpl in H. apply negb_true_iff in H.
  by apply bool_decide_eq_false in H.
Qed.

Lemma foreign_keys_ok_true db fs inst f to od ref :
  foreign_keys_ok db fs inst = true → f ∈ fs →
  f_type f = ForeignKey to od ∨ f_type f = OneToOneField to od →
  getattr inst (f_name f) = VRef ref → stored db to ref.
Proof.
  unfold foreign_keys_ok. rewrite forallb_forall. intros H Hf Hty Hv.
  apply list_elem_of_In in Hf. specialize (H f Hf). simpl in H.
  rewrite Hv in H. unfold stored.
  destruct Hty as [Hty|Hty]; rewrite Hty in H; by apply bool_decide_eq_true in H.
Qed.

Lemma constraints_ok_true db M pk inst :
  constraints_ok db M pk inst = true →
  not_null_ok (m_fields M) inst = true
  ∧ unique_ok db (m_name M) pk (m_fields M) inst = true
  ∧ foreign_keys_ok db (m_fields M) inst = true.
Proof.
  unfold constraints_ok. intros [[? ?]%andb_prop ?]%andb_prop. done.
Qed.

(** A successful insertion, taken apart. *)
Lemma insert_Created now m kw db db' pk :
  insert now m kw db = (db', Created pk) →
  ∃ M, get_model m = Some M
    ∧ new_pk db m kw = Some pk
    ∧ get_db_prep_save (m_fields M) (pre_save now (m_fields M) (instance M kw)) = None
    ∧ objects db !! (m, pk) = None
    ∧ constraints_ok db' M pk (pre_save now (m_fields M) (instance M kw)) = true
    ∧ db' = mkDB (<[(m, pk) := pre_save now (m_fields M) (instance M kw)]> (objects db))
                 (<[m := Z.max (next_pk db m) (pk + 1)]> (sequences db)).
Proof.
  unfold insert. destruct (get_model m) as [M|]; [|done].
  destruct (negb _); [done|].
  destruct (new_pk db m kw) as [k|]; [|done].
  destruct (get_db_prep_save _ _) eqn:Hp; [done|].
  case_bool_decide as Hfresh; [|done]. simpl.
  destruct (constraints_ok _ _ _ _) eqn:Hc; [|done].
  intros [= <- <-]. exists M. done.
Qed.

Lemma save_Updated m pk name v db db' :
  save m pk name v db = (db', Updated) →
  ∃ M r f, get_model m = Some M
    ∧ objects db !! (m, pk) = Some r
    ∧ get_field M name = Some f
    ∧ get_db_prep_save (m_fields M) (<[name := v]> r) = None
    ∧ constraints_ok db' M pk (<[name := v]> r) = true
    ∧ db' = mkDB (<[(m, pk) := <[name := v]> r]> (objects db)) (sequences db).
Proof.
  unfold save. destruct (get_model m) as [M|]; [|done].
  destruct (objects db !! (m, pk)) as [r|]; [|done].
  destruct (get_field M name) as [f|] eqn:Hgf; [|done].
  destruct (get_db_prep_save _ _) eqn:Hp; [done|].
  destruct (constraints_ok _ _ _ _) eqn:Hc; [|done].
  intros [= <-]. exists M, r, f. done.
Qed.

(** A plain write either fails and leaves the database as it was, or
    succeeds. *)
Lemma insert_outcome now m kw db :
  (∃ e, insert now m kw db = (db, Err e))
  ∨ (∃ db' pk, insert now m kw db = (db', Created pk)).
Proof.
  unfold insert. destruct (get_model m) as [M|]; [|eauto].
  destruct (negb _); [eauto|].
  destruct (new_pk db m kw) as [k|]; [|eauto].
  destruct (get_db_prep_save _ _); [eauto|].
  destruct (_ && _); eauto.
Qed.

Lemma save_outcome m pk name v db :
  (∃ e, save m pk name v db = (db, Err e))
  ∨ (∃ db', save m pk name v db = (db', Updated)).
Proof.
  unfold save. destruct (get_model m) as [M|]; [|eauto].
  destruct (objects db !! (m, pk)) as [r|]; [|eauto].
  destruct (get_field M name) as [f|]; [|eauto].
  destruct (get_db_prep_save _ _); [eauto|].
  destruct (constraints_ok _ _ _ _); eauto.
Qed.

(** An inserted row holds, in an [auto_now_add] column, the time of the
    insertion, and in any other column the value supplied or else the
    default of the field. *)
Lemma insert_column now m kw db db' pk M name f :
  insert now m kw db = (db', Created pk) →
  get_model m = Some M → get_field M name = Some f →
  column_of db' m pk name
  = Some (if auto_now_add_of f then VTime now
          else default (get_default f) (kw !! name)).
Proof.
  intros (M' & HM' & _ & _ & _ & _ & ->)%insert_Created HM Hf.
  rewrite HM in HM'. injection HM' as <-.
  rewrite column_of_insert, decide_True by done.
  pose proof (schema_NoDup _ _ HM) as Hnd.
  destruct (get_field_Some _ _ _ Hf) as [Hin <-].
  destruct (auto_now_add_of f) eqn:Ha.
  - by apply lookup_pre_save_auto.
  - rewrite lookup_pre_save_keep by done. by apply lookup_instance.
Qed.

Lemma get_field_in M f :
  NoDup (f_name <$> m_fields M) → f ∈ m_fields M → get_field M (f_name f) = Some f.
Proof.
  intros Hnd Hf. destruct (get_field M (f_name f)) as [g|] eqn:Hg.
  - destruct (get_field_Some _ _ _ Hg) as [Hin Hn]. f_equal.
    by eapply fields_same_name.
  - exfalso. unfold get_field in Hg.
    assert (In f (m_fields M)) as Hin by by apply list_elem_of_In.
    pose proof (find_none _ _ Hg f Hin) as Hb. simpl in Hb.
    by rewrite bool_decide_eq_true_2 in Hb.
Qed.

(** A saved row holds the assigned value in the assigned column and what
    it held in every other column. *)
Lemma save_column m pk name v db db' name' :
  save m pk name v db = (db', Updated) →
  column_of db' m pk name'
  = if decide (name' = name) then Some v else column_of db m pk name'.
Proof.
  intros (M & r & f & _ & Hr & _ & _ & _ & ->)%save_Updated.
  rewrite column_of_insert, decide_True by done.
  unfold column_of. rewrite Hr. simpl. case_decide as Hn.
  - subst. apply lookup_insert_eq.
  - by rewrite lookup_insert_ne.
Qed.

Lemma save_other_row m pk name v db db' m' pk' :
  save m pk name v db = (db', Updated) → (m', pk') ≠ (m, pk) →
  objects db' !! (m', pk') = objects db !! (m', pk').
Proof.
  intros (M & r & f & _ & Hr & _ & _ & _ & ->)%save_Updated Hne.
  simpl. by rewrite lookup_insert_ne.
Qed.

Lemma orm_reachable_run ops : orm_reachable (orm_run ops empty_db).
Proof. by exists ops. Qed.

(** ** At most one reply to a feedback *)



(** The error of the second reply is the uniqueness error of [parent]. *)
Example second_reply_error :
  (create 13 "FeedbackReply"
     {[ "content" := VStr "again"; "parent" := VRef 1 ]} feedback_db).2
  = Err (ValidationError "parent" "unique").
Proof. vm_compute. reflexivity. Qed.

(** ** The status of a membership request *)

Lemma status_clean db0 v :
  clean_field db0
    (column "status" (CharField 2)
       [choices STATUS_CHOICES; blank false; default_ (VStr "PD")]) v = None →
  ∃ code label, v = VStr code ∧ (code, label) ∈ STATUS_CHOICES.
Proof.
  destruct v as [|s| |]; try (vm_compute; discriminate).
  unfold clean_field, validate, blank_of, editable, in_choices. simpl.
  destruct (bool_decide (s = "")) eqn:Hs; simpl.
  { by destruct (bool_decide _). }
  destruct (bool_decide (s ∈ _)) eqn:Hc; simpl; [|intros; discriminate].
  intros _. apply bool_decide_eq_true, list_elem_of_In in Hc. simpl in Hc.
  destruct Hc as [<-|[<-|[<-|[<-|[]]]]].
  - exists "PD", "Pending". split; [done|decided].
  - exists "AC", "Accepted". split; [done|decided].
  - exists "RE", "Rejected". split; [done|decided].
  - exists "CN", "Cancelled". split; [done|decided].
Qed.

Lemma status_declared db0 code label :
  (code, label) ∈ STATUS_CHOICES →
  clean_field db0
    (column "status" (CharField 2)
       [choices STATUS_CHOICES; blank false; default_ (VStr "PD")])
    (VStr code) = None.
Proof.
  intros Hc. apply list_elem_of_In in Hc. simpl in Hc.
  destruct Hc as [Hc|[Hc|[Hc|[Hc|[]]]]]; injection Hc as <- <-; reflexivity.
Qed.

Lemma undeclared_code label : ("XX", label) ∉ STATUS_CHOICES.
Proof.
  intros Hin. apply list_elem_of_In in Hin. simpl in Hin.
  destruct Hin as [H|[H|[H|[H|[]]]]]; discriminate H.
Qed.

Lemma undeclared_status_inserted :
  ∃ db' pk,
    insert 10 "ClubMembershipRequest"
      {[ "user" := VRef 1; "club" := VRef 1; "status" := VStr "XX" ]} thread_db
    = (db', Created pk)
    ∧ column_of db' "ClubMembershipRequest" pk "status" = Some (VStr "XX")
    ∧ ∀ label, ("XX", label) ∉ STATUS_CHOICES.
Proof.
  destruct (insert_outcome 10 "ClubMembershipRequest"
              {[ "user" := VRef 1; "club" := VRef 1; "status" := VStr "XX" ]}
              thread_db)
    as [[e He]|(db' & pk & Hc)].
  - exfalso.
    assert ((insert 10 "ClubMembershipRequest"
               {[ "user" := VRef 1; "club" := VRef 1; "status" := VStr "XX" ]}
               thread_db).2
            = Created 1) as Hok by (vm_compute; reflexivity).
    rewrite He in Hok. cbn [snd] in Hok. discriminate Hok.
  - exists db', pk. split; [exact Hc|]. split; [|exact undeclared_code].
    rewrite (insert_column _ _ _ _ _ _ ClubMembershipRequest "status"
               (column "status" (CharField 2)
                  [choices STATUS_CHOICES; blank false; default_ (VStr "PD")]) Hc);
      [|reflexivity..].
    assert (({[ "user" := VRef 1; "club" := VRef 1; "status" := VStr "XX" ]}
               : gmap string value) !! "status" = Some (VStr "XX")) as ->
      by decided.
    reflexivity.
Qed.

(** C6, as amended. A membership request inserted or created without a
    status has the status ["PD"], the code of Pending.  The declared codes
    are the four of [STATUS_CHOICES], labelled Pending, Accepted, Rejected
    and Cancelled, and it is validation that holds a status to them: a
    value passes the validation of the field exactly when it is one of the
    four codes, an instance that passes [full_clean] has one of them as
    its status, and each of the four is the status of a request in some
    reachable state.  A plain insertion is not held to them: a request
    inserted with the status ["XX"] is stored with it. *)
Theorem request_status_default_and_validation :
  (∀ now kw db db' pk,
     kw !! "status" = None →
     insert now "ClubMembershipRequest" kw db = (db', Created pk)
     ∨ create now "ClubMembershipRequest" kw db = (db', Created pk) →
     column_of db' "ClubMembershipRequest" pk "status" = Some (VStr "PD"))
  ∧ ("PD", "Pending") ∈ STATUS_CHOICES
  ∧ STATUS_CHOICES.*2 = ["Pending"; "Accepted"; "Rejected"; "Cancelled"]
  ∧ (∀ db v,
       clean_field db
         (column "status" (CharField 2)
            [choices STATUS_CHOICES; blank false; default_ (VStr "PD")]) v = None
       ↔ ∃ code label, v = VStr code ∧ (code, label) ∈ STATUS_CHOICES)
  ∧ (∀ db self inst,
       full_clean db ClubMembershipRequest self inst = None →
       ∃ code label,
         inst !! "status" = Some (VStr code) ∧ (code, label) ∈ STATUS_CHOICES)
  ∧ (∀ code label,
       (code, label) ∈ STATUS_CHOICES →
       ∃ db1 pk,
         reachable db1
         ∧ column_of db1 "ClubMembershipRequest" pk "status" = Some (VStr code))
  ∧ (∃ db' pk,
       insert 10 "ClubMembershipRequest"
         {[ "user" := VRef 1; "club" := VRef 1; "status" := VStr "XX" ]} thread_db
       = (db', Created pk)
       ∧ column_of db' "ClubMembershipRequest" pk "status" = Some (VStr "XX")
       ∧ ∀ label, ("XX", label) ∉ STATUS_CHOICES).
Proof.
  assert (get_model "ClubMembershipRequest" = Some ClubMembershipRequest)
    as HM by reflexivity.
  assert (get_field ClubMembershipRequest "status"
          = Some (column "status" (CharField 2)
                    [choices STATUS_CHOICES; blank false; default_ (VStr "PD")]))
    as Hf by reflexivity.
  split_and!.
  - intros now kw db db' pk Hkw [Hc|Hc].
    + rewrite (insert_column _ _ _ _ _ _ _ _ _ Hc HM Hf), Hkw. reflexivity.
    + rewrite (create_column _ _ _ _ _ _ _ _ _ Hc HM Hf), Hkw. reflexivity.
  - decided.
  - reflexivity.
  - intros db v. split; [apply status_clean|].
    intros (code & label & -> & Hc). by eapply status_declared.
  - intros db self inst [Hcl _]%full_clean_None.
    destruct (get_field_Some _ _ _ Hf) as [Hin _].
    specialize (Hcl _ Hin).
    apply status_clean in Hcl as (code & label & Hv & Hc).
    exists code, label. split; [|done].
    change (getattr inst "status" = VStr code) in Hv. unfold getattr in Hv.
    destruct (inst !! "status") as [w|]; simpl in Hv; by subst.
  - intros code label Hc.
    exists (run [Create 1 "User" ∅;
                 Create 2 "Club" {[ "name" := VStr "chess"; "description" := VStr "games" ]};
                 Create 3 "ClubMembershipRequest"
                   {[ "user" := VRef 1; "club" := VRef 1; "status" := VStr code ]}]
              empty_db), 1.
    split; [apply reachable_run, reachable_empty|].
    apply list_elem_of_In in Hc. simpl in Hc.
    destruct Hc as [Hc|[Hc|[Hc|[Hc|[]]]]]; injection Hc as <- <-; decided.
  - exact undeclared_status_inserted.
Qed.

(** A request inserted into the forum without a status. *)
Lemma request_status_default_and_validation_witness :
  ∃ db' pk,
    insert 10 "ClubMembershipRequest"
      {[ "user" := VRef 1; "club" := VRef 1 ]} thread_db = (db', Created pk)
    ∧ column_of db' "ClubMembershipRequest" pk "status" = Some (VStr "PD").
Proof.
  destruct request_status_default_and_validation as [Hd _].
  destruct (insert_outcome 10 "ClubMembershipRequest"
              {[ "user" := VRef 1; "club" := VRef 1 ]} thread_db)
    as [[e He]|(db' & pk & Hc)].
  - exfalso.
    assert ((insert 10 "ClubMembershipRequest"
               {[ "user" := VRef 1; "club" := VRef 1 ]} thread_db).2
            = Created 1) as Hok by (vm_compute; reflexivity).
    rewrite He in Hok. cbn [snd] in Hok. discriminate Hok.
  - exists db', pk. split; [exact Hc|].
    apply (Hd 10 {[ "user" := VRef 1; "club" := VRef 1 ]} thread_db);
      [decided|left; exact Hc].
Defined.

(** C6, as stated, fails: a plain insertion is not validated, and a
    request inserted with the status ["XX"] is stored with it. *)
Lemma undeclared_status_stored : ¬ status_always_declared.
Proof.
  intros [_ H].
  destruct (H undeclared_db 1) as (code & label & Hc & Hin).
  - apply orm_reachable_run.
  - stored_now.
  - assert (column_of undeclared_db "ClubMembershipRequest" 1 "status"
            = Some (VStr "XX")) as Hx by decided.
    rewrite Hx in Hc. injection Hc as <-. by apply undeclared_code in Hin.
Qed.

(** ** Creation without a required field *)








(** ** Timestamps *)

Lemma update_column_other m pk name v db db' name' :
  update m pk name v db = (db', Updated) → name' ≠ name →
  column_of db' m pk name' = column_of db m pk name'.
Proof.
  intros (M & r & f & _ & Hr & _ & _ & _ & ->)%update_Updated Hne.
  rewrite column_of_insert, decide_True by done.
  unfold column_of. rewrite Hr. simpl. by rewrite lookup_insert_ne.
Qed.

Lemma initiated_rewritten :
  ∃ db',
    save "ClubMembershipRequest" 1 "initiated" (VTime 99) closed_db = (db', Updated)
    ∧ column_of closed_db "ClubMembershipRequest" 1 "initiated" = Some (VTime 10)
    ∧ column_of db' "ClubMembershipRequest" 1 "initiated" = Some (VTime 99).
Proof.
  destruct (save_outcome "ClubMembershipRequest" 1 "initiated" (VTime 99) closed_db)
    as [[e He]|(db' & Hs)].
  - exfalso.
    assert ((save "ClubMembershipRequest" 1 "initiated" (VTime 99) closed_db).2
            = Updated) as Hok by (vm_compute; reflexivity).
    rewrite He in Hok. cbn [snd] in Hok. discriminate Hok.
  - exists db'. split; [exact Hs|]. split; [decided|].
    rewrite (save_column _ _ _ _ _ _ "initiated" Hs). apply decide_True. reflexivity.
Qed.

(** C7, as amended. The creation timestamps are the [auto_now_add] columns
    [initiated], [joined], [started] and [created].  An insertion sets
    such a column to the time of the insertion, whatever the caller
    supplies, and a write that assigns another column of the row leaves it
    as it is.  The schema does not freeze it: a save that assigns the
    column stores the assigned value, as it does for every column, and the
    request of the forum has its [initiated] moved from 10 to 99.  The
    column [closed] of a membership request or of a project is null in a
    row inserted without a value for it; a save of [closed] stores the
    value it is given, whatever the column held. *)
Theorem timestamps_set_on_insert_not_frozen :
  auto_columns
  = [ ("ClubMembershipRequest", "initiated"); ("ClubMembership", "joined");
      ("Project", "started"); ("ProjectMembership", "joined");
      ("ChannelSubscription", "joined"); ("Post", "created");
      ("Conversation", "created"); ("Feedback", "created");
      ("FeedbackReply", "created") ]
  ∧ (∀ now m kw db db' pk M f,
       insert now m kw db = (db', Created pk)
       ∨ create now m kw db = (db', Created pk) →
       get_model m = Some M → f ∈ m_fields M → auto_now_add_of f = true →
       column_of db' m pk (f_name f) = Some (VTime now))
  ∧ (∀ m pk name v db db' name',
       save m pk name v db = (db', Updated)
       ∨ update m pk name v db = (db', Updated) →
       name' ≠ name →
       column_of db' m pk name' = column_of db m pk name')
  ∧ (∀ m pk name v db db',
       save m pk name v db = (db', Updated)
       ∨ update m pk name v db = (db', Updated) →
       column_of db' m pk name = Some v)
  ∧ (∃ db',
       save "ClubMembershipRequest" 1 "initiated" (VTime 99) closed_db
       = (db', Updated)
       ∧ column_of closed_db "ClubMembershipRequest" 1 "initiated" = Some (VTime 10)
       ∧ column_of db' "ClubMembershipRequest" 1 "initiated" = Some (VTime 99))
  ∧ (∀ now m kw db db' pk,
       closed_tables m → kw !! "closed" = None →
       insert now m kw db = (db', Created pk)
       ∨ create now m kw db = (db', Created pk) →
       column_of db' m pk "closed" = Some VNone).
Proof.
  split_and!.
  - reflexivity.
  - intros now m kw db db' pk M f Hc HM Hf Ha.
    pose proof (get_field_in _ _ (schema_NoDup _ _ HM) Hf) as Hgf.
    destruct Hc as [Hc|Hc].
    + rewrite (insert_column _ _ _ _ _ _ _ _ _ Hc HM Hgf), Ha. done.
    + rewrite (create_column _ _ _ _ _ _ _ _ _ Hc HM Hgf), Ha. done.
  - intros m pk name v db db' name' [Hs|Hu] Hne.
    + rewrite (save_column _ _ _ _ _ _ name' Hs). by apply decide_False.
    + by eapply update_column_other.
  - intros m pk name v db db' [Hs|Hu].
    + rewrite (save_column _ _ _ _ _ _ name Hs). by apply decide_True.
    + by eapply update_column.
  - exact initiated_rewritten.
  - assert (Hclosed : ∀ m, closed_tables m →
              ∃ M, get_model m = Some M
                   ∧ get_field M "closed"
                     = Some (column "closed" (DateTimeField false)
                               [default_ VNone; blank true; null true])).
    { intros m [-> | ->]; eexists; split; reflexivity. }
    intros now m kw db db' pk (M & HM & Hf)%Hclosed Hkw [Hc|Hc].
    + rewrite (insert_column _ _ _ _ _ _ _ _ _ Hc HM Hf), Hkw. reflexivity.
    + rewrite (create_column _ _ _ _ _ _ _ _ _ Hc HM Hf), Hkw. reflexivity.
Qed.

(** A post inserted into the forum at time 7, with another time supplied
    for [created]. *)
Lemma timestamps_set_on_insert_not_frozen_witness :
  ∃ db' pk,
    insert 7 "Post"
      {[ "content" := VStr "tournament"; "channel" := VRef 1;
         "created" := VTime 5 ]} thread_db = (db', Created pk)
    ∧ column_of db' "Post" pk "created" = Some (VTime 7).
Proof.
  destruct timestamps_set_on_insert_not_frozen as (_ & Hset & _).
  destruct (insert_outcome 7 "Post"
              {[ "content" := VStr "tournament"; "channel" := VRef 1;
                 "created" := VTime 5 ]} thread_db)
    as [[e He]|(db' & pk & Hc)].
  - exfalso.
    assert ((insert 7 "Post"
               {[ "content" := VStr "tournament"; "channel" := VRef 1;
                  "created" := VTime 5 ]} thread_db).2 = Created 1)
      as Hok by (vm_compute; reflexivity).
    rewrite He in Hok. cbn [snd] in Hok. discriminate Hok.
  - exists db', pk. split; [exact Hc|].
    apply (Hset 7 "Post"
             {[ "content" := VStr "tournament"; "channel" := VRef 1;
                "created" := VTime 5 ]} thread_db db' pk Post
             (column "created" (DateTimeField true) [blank false]));
      [left; exact Hc|reflexivity|by apply (get_field_Some Post "created")
      |reflexivity].
Defined.

(** C7, as stated, fails: the [closed] column of the request of
    [closed_db] holds a time, and a further update changes it to another
    time. *)
Lemma closed_written_twice : ¬ timestamps_written_once.
Proof.
  intros (_ & _ & H).
  destruct (H closed_db (Update "ClubMembershipRequest" 1 "closed" (VTime 21))
              "ClubMembershipRequest" 1 (VTime 20) (VTime 21))
    as [Heq|Heq]; [by left|exact closed_db_reachable|decided|decided|..];
    discriminate Heq.
Qed.

(** * Further properties of the schema *)

(** ** Relations and the fields that declare them *)

Lemma same_key {A} (k : A → string) (l : list A) x y :
  NoDup (k <$> l) → x ∈ l → y ∈ l → k x = k y → x = y.
Proof.
  induction l as [|h l IH]; simpl; [by intros _ ?%elem_of_nil|].
  intros [Hh Hnd]%NoDup_cons [->|Hx]%elem_of_cons [->|Hy]%elem_of_cons Heq;
    [done|..|by apply IH].
  - exfalso. apply Hh. rewrite Heq. apply list_elem_of_fmap. by exists y.
  - exfalso. apply Hh. rewrite <- Heq. apply list_elem_of_fmap. by exists x.
Qed.

Lemma schema_names_NoDup : NoDup (m_name <$> schema).
Proof. apply (bool_decide_unpack _). vm_compute. exact I. Qed.

(** A relation of the schema is declared by a foreign-key or one-to-one
    field of its model. *)
Lemma relation_field m f to od M :
  (m, f, to, od) ∈ relations → get_model m = Some M →
  ∃ g, g ∈ m_fields M ∧ f_name g = f
       ∧ (f_type g = ForeignKey to od ∨ f_type g = OneToOneField to od).
Proof.
  unfold relations. intros (M' & Hrel & HM')%list_elem_of_bind HM.
  apply list_elem_of_bind in Hrel as (g & Hrel & Hg).
  assert (m_name M' = m ∧ f_name g = f
          ∧ (f_type g = ForeignKey to od ∨ f_type g = OneToOneField to od))
    as (Hm & Hf & Hty).
  { unfold field_relation in Hrel.
    destruct (f_type g) as [| | |to' od'|to' od'];
      try (by apply elem_of_nil in Hrel);
      apply list_elem_of_singleton in Hrel; injection Hrel as -> -> -> ->; eauto. }
  destruct (get_model_Some _ _ HM) as [HMin HMn].
  assert (M' = M) as ->.
  { apply (same_key m_name schema); [apply schema_names_NoDup|done..|congruence]. }
  eauto.
Qed.

Lemma relation_model m f to od :
  (m, f, to, od) ∈ relations → ∃ M, get_model m = Some M.
Proof.
  unfold relations. intros (M' & Hrel & HM')%list_elem_of_bind.
  apply list_elem_of_bind in Hrel as (g & Hrel & Hg).
  assert (m_name M' = m) as Hm.
  { unfold field_relation in Hrel.
    destruct (f_type g); try (by apply elem_of_nil in Hrel);
      apply list_elem_of_singleton in Hrel; by injection Hrel as -> _ _ _. }
  destruct (get_model m) as [M|] eqn:HM; [eauto|]. exfalso.
  unfold get_model in HM.
  assert (In M' schema) as Hin by by apply list_elem_of_In.
  pose proof (find_none _ _ HM M' Hin) as Hb. simpl in Hb.
  by rewrite bool_decide_eq_true_2 in Hb.
Qed.

Lemma relation_not_auto g to od :
  f_type g = ForeignKey to od ∨ f_type g = OneToOneField to od →
  auto_now_add_of g = false.
Proof. unfold auto_now_add_of. by intros [-> | ->]. Qed.


(** What [clean_field] has checked of a field that may not be blank. *)
Lemma clean_field_required db0 f v :
  f_blank f = false → auto_now_add_of f = false →
  clean_field db0 f v = None →
  empty_values v = false ∧ to_python (f_type f) v = true
  ∧ run_validators f v = None
  ∧ (∀ c, f_choices f = Some c → in_choices c v = true).
Proof.
  intros Hb Ha. unfold clean_field, validate, editable, blank_of.
  rewrite Hb, Ha. simpl.
  destruct (to_python (f_type f) v); simpl; [|done].
  destruct (empty_values v) eqn:He; simpl.
  { destruct (f_choices f); simpl; [|destruct (_ && _)]; try done.
    by destruct (_ && _). }
  destruct (f_choices f) as [c|]; simpl.
  - destruct (in_choices c v) eqn:Hc; simpl; [|done].
    destruct (_ && _); [done|].
    destruct (match f_type f with ForeignKey _ _ | OneToOneField _ _ => _ | _ => _ end);
      [done|].
    intros Hrv. split_and!; try done. by intros ? [= <-].
  - destruct (_ && _); [done|].
    destruct (match f_type f with ForeignKey _ _ | OneToOneField _ _ => _ | _ => _ end);
      [done|].
    intros Hrv. split_and!; done.
Qed.

(** ** Referential integrity *)













(** ** What the tables hold after a plain write *)

(** The row a plain write leaves: its values are of the types of their
    columns and it meets the constraints of its table. *)
Lemma written_row db db' m pk :
  written db db' m pk →
  ∃ M inst, get_model m = Some M
    ∧ objects db' !! (m, pk) = Some inst
    ∧ get_db_prep_save (m_fields M) inst = None
    ∧ constraints_ok db' M pk inst = true.
Proof.
  intros [(now & kw & Hi)|(name & v & Hs)].
  - apply insert_Created in Hi as (M & HM & _ & Hp & _ & Hok & Hdb).
    exists M, (pre_save now (m_fields M) (instance M kw)).
    split_and!; try done. rewrite Hdb. simpl. apply lookup_insert_eq.
  - apply save_Updated in Hs as (M & r & f & HM & _ & _ & Hp & Hok & Hdb).
    exists M, (<[name := v]> r).
    split_and!; try done. rewrite Hdb. simpl. apply lookup_insert_eq.
Qed.

Lemma getattr_lookup (r : row) name v :
  getattr r name = v → v ≠ VNone → r !! name = Some v.
Proof.
  unfold getattr. destruct (r !! name) as [w|]; simpl; [by intros ->|].
  by intros <-.
Qed.

(** X2. After a plain write, every column of the written row whose field
    is not declared [null=True] holds a value of the type of the field: a
    string for a text column, a time for a datetime column, and for a
    foreign key or one-to-one field a reference to a stored row of the
    target model.  The string may be empty and of any length. *)
Theorem written_required_columns db db' m pk M f :
  written db db' m pk →
  get_model m = Some M → f ∈ m_fields M → f_null f = false →
  match f_type f with
  | CharField _ | TextField =>
    ∃ s, column_of db' m pk (f_name f) = Some (VStr s)
  | DateTimeField _ => ∃ t, column_of db' m pk (f_name f) = Some (VTime t)
  | ForeignKey to _ | OneToOneField to _ =>
    ∃ ref, column_of db' m pk (f_name f) = Some (VRef ref) ∧ stored db' to ref
  end.
Proof.
  intros (M' & inst & HM' & Hrow & Hp & Hok)%written_row HM Hf Hn.
  rewrite HM in HM'. injection HM' as <-.
  apply constraints_ok_true in Hok as (Hnn & _ & Hfk).
  pose proof (not_null_ok_true _ _ f Hnn Hf Hn) as Hv.
  pose proof (proj1 (get_db_prep_save_None _ _) Hp f Hf) as Hty.
  pose proof (getattr_lookup inst (f_name f) _ eq_refl Hv) as Hcol.
  assert (Hlive : ∀ to od ref,
            f_type f = ForeignKey to od ∨ f_type f = OneToOneField to od →
            getattr inst (f_name f) = VRef ref → stored db' to ref).
  { intros to od ref Hto Href.
    exact (foreign_keys_ok_true _ _ _ _ _ _ _ Hfk Hf Hto Href). }
  unfold column_of. rewrite Hrow. simpl. rewrite Hcol.
  destruct (f_type f) as [n| |a|to od|to od] eqn:Hft;
    destruct (getattr inst (f_name f)) as [|s|t|ref]; try done; eauto.
Qed.

(** The post inserted without its content holds the empty string. *)
Lemma written_required_columns_witness :
  ∃ db' pk,
    written thread_db db' "Post" pk
    ∧ ∃ s, column_of db' "Post" pk "content" = Some (VStr s).
Proof.
  destruct (insert_outcome 7 "Post" {[ "channel" := VRef 1 ]} thread_db)
    as [[e He]|(db' & pk & Hc)].
  - exfalso.
    assert ((insert 7 "Post" {[ "channel" := VRef 1 ]} thread_db).2 = Created 1)
      as Hok by (vm_compute; reflexivity).
    rewrite He in Hok. cbn [snd] in Hok. discriminate Hok.
  - assert (written thread_db db' "Post" pk) as Hw by (left; eauto).
    exists db', pk. split; [exact Hw|].
    apply (written_required_columns thread_db db' "Post" pk Post
             (column "content" TextField [blank false]) Hw);
      [reflexivity|by apply (get_field_Some Post "content")|reflexivity].
Defined.

(** ** The [__str__] methods on reachable states *)

Section str_properties.

Variable str_datetime : Z → string.











End str_properties.




(** The strings of the example forum. *)
Example post_db_strings :
  str_of (λ _, "today") post_db "Post" 1 = Some "chess general today"
  ∧ str_of (λ _, "today") post_db "ClubRole" 1 = Some "chess captain"
  ∧ str_of (λ _, "today") post_db "FeedbackReply" 1 = Some "chess today today".
Proof. split_and!; vm_compute; reflexivity. Qed.

(** ** More on deletion *)

Lemma delete_non_user_ok db m pk :
  m ≠ "User" → stored db m pk →
  delete m pk db = (remove_objects (collect db {[(m, pk)]}) db, Deleted).
Proof.
  intros Hm Hs. apply delete_cascade; [done|].
  intros y x Hc (r & f & _ & Hin & _).
  apply protect_relation in Hin as (_ & _ & Hy).
  apply cascades_user in Hc; [|done]. by subst y.
Qed.

Lemma gone_after_delete db m pk x :
  cascades db (m, pk) x →
  objects (remove_objects (collect db {[(m, pk)]}) db) !! x = None.
Proof.
  intros Hc. rewrite lookup_remove_objects, decide_True; [done|].
  apply elem_of_collect. exists (m, pk). split; [|done].
  by apply elem_of_singleton.
Qed.

Lemma kept_after_delete db m pk x :
  ¬ cascades db (m, pk) x →
  objects (remove_objects (collect db {[(m, pk)]}) db) !! x = objects db !! x.
Proof.
  intros Hc. rewrite lookup_remove_objects, decide_False; [done|].
  by intros (y & ->%elem_of_singleton & ?)%elem_of_collect.
Qed.

(** X5. The only protected reference of the schema guards users: deleting
    a stored object of any other model succeeds.  It removes the objects
    that cascade from the deleted one, leaves every other row as it was,
    and does not move the primary-key counters. *)
Theorem delete_succeeds_unless_user db m pk :
  m ≠ "User" → stored db m pk →
  ∃ db', delete m pk db = (db', Deleted)
    ∧ (∀ x, cascades db (m, pk) x → objects db' !! x = None)
    ∧ (∀ x, ¬ cascades db (m, pk) x → objects db' !! x = objects db !! x)
    ∧ sequences db' = sequences db.
Proof.
  intros Hm Hs. eexists. split; [by apply delete_non_user_ok|].
  split_and!; [apply gone_after_delete|apply kept_after_delete|done].
Qed.

Lemma delete_succeeds_unless_user_witness :
  stored project_db "Project" 1
  ∧ ∃ db', delete "Project" 1 project_db = (db', Deleted)
      ∧ objects db' !! ("Project", 1) = None.
Proof.
  assert (stored project_db "Project" 1) as Hs by stored_now.
  split; [exact Hs|].
  destruct (delete_succeeds_unless_user project_db "Project" 1) as (db' & Hd & Hg & _);
    [discriminate|exact Hs|].
  exists db'. split; [exact Hd|]. apply Hg. constructor.
Defined.

(** X6. The deletion of a stored user succeeds exactly when the user leads
    no project; otherwise it fails with [ProtectedError]. *)
Theorem user_delete_iff_no_project db u :
  stored db "User" u →
  ((∃ db', delete "User" u db = (db', Deleted)) ↔ leads_no_project db u)
  ∧ (¬ leads_no_project db u → delete "User" u db = (db, Err ProtectedError)).
Proof.
  intros Hu.
  assert (Hprot : ∀ p, column_of db "Project" p "leader" = Some (VRef u) →
            delete "User" u db = (db, Err ProtectedError)).
  { intros p Hp. eapply delete_protected; [done|constructor|].
    eapply refs_to_intro; [|exact Hp]. in_relations. }
  split.
  - split.
    + intros [db' Hd] p Hp. rewrite (Hprot p Hp) in Hd. discriminate Hd.
    + intros Hl. eexists. by apply user_delete_ok.
  - intros Hn. destruct (delete_outcome "User" u db) as [[e He]|Hd].
    + rewrite He. unfold delete in He. destruct Hu as [r Hr].
      rewrite Hr in He. simpl in He. case_decide as HE; [|done].
      discriminate He.
    + exfalso. apply Hn. intros p Hp. rewrite (Hprot p Hp) in Hd. discriminate Hd.
Qed.

Lemma user_delete_iff_no_project_witness :
  stored project_db "User" 1
  ∧ ((∃ db', delete "User" 1 project_db = (db', Deleted))
     ↔ leads_no_project project_db 1).
Proof.
  assert (stored project_db "User" 1) as Hs by stored_now.
  split; [exact Hs|].
  exact (proj1 (user_delete_iff_no_project project_db 1 Hs)).
Defined.

(** Models to which no model refers, and models referred to by such models
    only. *)
Lemma leaf_cascades db m pk z :
  (∀ m' f, (m', f, m, CASCADE) ∉ relations) →
  cascades db (m, pk) z → z = (m, pk).
Proof.
  intros Hleaf. induction 1 as [|y z _ IH (r & f & _ & Hin & _)]; [done|].
  subst y. by apply Hleaf in Hin.
Qed.

Lemma one_level_cascades db m pk z :
  (∀ m' f, (m', f, m, CASCADE) ∈ relations →
     ∀ m'' f', (m'', f', m', CASCADE) ∉ relations) →
  cascades db (m, pk) z ↔ z = (m, pk) ∨ refs_to db CASCADE (m, pk) z.
Proof.
  intros Hone. split.
  - induction 1 as [|y z _ IH Hr]; [by left|]. right.
    destruct IH as [->|(r' & f' & _ & Hin' & _)]; [done|].
    destruct Hr as (r & f & _ & Hin & _). simpl in *.
    by apply (Hone _ _ Hin') in Hin.
  - intros [->|Hr]; [constructor|]. eapply cascades_step; [constructor|done].
Qed.

Lemma leaf_models_no_relation m m' f od :
  m ∈ leaf_models → (m', f, m, od) ∉ relations.
Proof.
  unfold leaf_models. intros [Hleaf _]%list_elem_of_filter Hin.
  apply Is_true_true in Hleaf. rewrite forallb_forall in Hleaf.
  apply list_elem_of_In, Hleaf in Hin. simpl in Hin.
  by rewrite bool_decide_eq_true_2 in Hin.
Qed.

(** X7. Nothing refers to a membership request, a club membership, a
    club-project link, a project membership, a channel subscription, a post
    or a feedback reply: deleting a stored row of one of these models
    succeeds and removes that row and no other. *)
Theorem leaf_delete_exact db m pk :
  m ∈ leaf_models → stored db m pk →
  leaf_models
  = [ "ClubMembershipRequest"; "ClubMembership"; "ClubProject";
      "ProjectMembership"; "ChannelSubscription"; "Post"; "FeedbackReply" ]
  ∧ ∃ db', delete m pk db = (db', Deleted)
      ∧ ∀ x, objects db' !! x
             = if decide (x = (m, pk)) then None else objects db !! x.
Proof.
  intros Hm Hs. split; [reflexivity|].
  assert (m ≠ "User") as Hnu.
  { intros ->. apply list_elem_of_In in Hm. vm_compute in Hm. intuition discriminate. }
  eexists. split; [by apply delete_non_user_ok|].
  intros x. case_decide as Hx.
  - subst x. apply gone_after_delete. constructor.
  - apply kept_after_delete. intros Hc. apply Hx.
    eapply leaf_cascades; [|exact Hc].
    intros m' f. by apply leaf_models_no_relation.
Qed.

Lemma leaf_delete_exact_witness :
  stored post_db "Post" 1
  ∧ ∃ db', delete "Post" 1 post_db = (db', Deleted)
      ∧ objects db' !! ("Post", 1) = None
      ∧ objects db' !! ("Channel", 1) = objects post_db !! ("Channel", 1).
Proof.
  assert (stored post_db "Post" 1) as Hs by stored_now.
  split; [exact Hs|].
  destruct (leaf_delete_exact post_db "Post" 1) as (_ & db' & Hd & Hx);
    [decided|exact Hs|].
  exists db'. split; [exact Hd|]. split.
  - rewrite Hx. by rewrite decide_True.
  - rewrite Hx. by rewrite decide_False.
Defined.

Lemma role_cascades db r z :
  cascades db ("ClubRole", r) z ↔
  z = ("ClubRole", r)
  ∨ z.1 = "ClubMembership" ∧ column_of db z.1 z.2 "club_role" = Some (VRef r).
Proof.
  rewrite one_level_cascades.
  2: { intros m' f H. relation_cases H. intros m'' f' H'. relation_cases H'. }
  destruct z as [zm zpk]. simpl. split; (intros [->|H]; [by left|right]).
  - destruct H as (r0 & f & Hr & Hin & Hf). simpl in *.
    assert (column_of db zm zpk f = Some (VRef r)) as Hcol
      by (apply column_of_Some; eauto).
    clear Hr Hf. relation_cases Hin. done.
  - destruct H as [-> Hcol]. eapply refs_to_intro; [|exact Hcol]. in_relations.
Qed.

Lemma feedback_cascades db fb z :
  cascades db ("Feedback", fb) z ↔
  z = ("Feedback", fb)
  ∨ z.1 = "FeedbackReply" ∧ column_of db z.1 z.2 "parent" = Some (VRef fb).
Proof.
  rewrite one_level_cascades.
  2: { intros m' f H. relation_cases H. intros m'' f' H'. relation_cases H'. }
  destruct z as [zm zpk]. simpl. split; (intros [->|H]; [by left|right]).
  - destruct H as (r0 & f & Hr & Hin & Hf). simpl in *.
    assert (column_of db zm zpk f = Some (VRef fb)) as Hcol
      by (apply column_of_Some; eauto).
    clear Hr Hf. relation_cases Hin. done.
  - destruct H as [-> Hcol]. eapply refs_to_intro; [|exact Hcol]. in_relations.
Qed.

(** X8. Deleting a club role succeeds and removes the role and the
    memberships that hold it, and no other row. *)
Theorem role_delete_exact db r :
  stored db "ClubRole" r →
  ∃ db', delete "ClubRole" r db = (db', Deleted)
    ∧ ∀ m pk, objects db' !! (m, pk)
        = if decide ((m, pk) = ("ClubRole", r)
                     ∨ m = "ClubMembership"
                       ∧ column_of db m pk "club_role" = Some (VRef r))
          then None else objects db !! (m, pk).
Proof.
  intros Hs. eexists. split; [by apply delete_non_user_ok|].
  intros m pk. case_decide as Hx.
  - apply gone_after_delete. by apply role_cascades.
  - apply kept_after_delete. by rewrite role_cascades.
Qed.

Lemma role_delete_exact_witness :
  stored post_db "ClubRole" 1
  ∧ ∃ db', delete "ClubRole" 1 post_db = (db', Deleted)
      ∧ objects db' !! ("ClubMembership", 1) = None
      ∧ objects db' !! ("Club", 1) = objects post_db !! ("Club", 1).
Proof.
  assert (stored post_db "ClubRole" 1) as Hs by stored_now.
  split; [exact Hs|].
  destruct (role_delete_exact post_db 1 Hs) as (db' & Hd & Hx).
  exists db'. split; [exact Hd|]. split.
  - rewrite Hx. rewrite decide_True; [done|]. right. split; [done|decided].
  - rewrite Hx. rewrite decide_False; [done|]. intros [[=]|[[=] _]].
Defined.

(** X9. Deleting a feedback succeeds and removes the feedback and its
    reply, and no other row. *)
Theorem feedback_delete_exact db fb :
  stored db "Feedback" fb →
  ∃ db', delete "Feedback" fb db = (db', Deleted)
    ∧ ∀ m pk, objects db' !! (m, pk)
        = if decide ((m, pk) = ("Feedback", fb)
                     ∨ m = "FeedbackReply"
                       ∧ column_of db m pk "parent" = Some (VRef fb))
          then None else objects db !! (m, pk).
Proof.
  intros Hs. eexists. split; [by apply delete_non_user_ok|].
  intros m pk. case_decide as Hx.
  - apply gone_after_delete. by apply feedback_cascades.
  - apply kept_after_delete. by rewrite feedback_cascades.
Qed.

Lemma feedback_delete_exact_witness :
  stored feedback_db "Feedback" 1
  ∧ ∃ db', delete "Feedback" 1 feedback_db = (db', Deleted)
      ∧ objects db' !! ("FeedbackReply", 1) = None
      ∧ objects db' !! ("User", 2) = objects feedback_db !! ("User", 2).
Proof.
  assert (stored feedback_db "Feedback" 1) as Hs by stored_now.
  split; [exact Hs|].
  destruct (feedback_delete_exact feedback_db 1 Hs) as (db' & Hd & Hx).
  exists db'. split; [exact Hd|]. split.
  - rewrite Hx. rewrite decide_True; [done|]. right. split; [done|decided].
  - rewrite Hx. rewrite decide_False; [done|]. intros [[=]|[[=] _]].
Defined.

(** X10. Deleting a channel succeeds and removes its subscriptions, its
    posts, its conversations and every conversation below one of them in a
    thread, in whatever channel; it leaves every club row, the channel's own
    club included, and every user row as they were. *)
Theorem channel_delete_cascades db ch :
  stored db "Channel" ch →
  ∃ db', delete "Channel" ch db = (db', Deleted)
    ∧ (∀ pk, column_of db "ChannelSubscription" pk "channel" = Some (VRef ch) →
         ¬ stored db' "ChannelSubscription" pk)
    ∧ (∀ pk, column_of db "Post" pk "channel" = Some (VRef ch) →
         ¬ stored db' "Post" pk)
    ∧ (∀ a d, column_of db "Conversation" a "channel" = Some (VRef ch) →
         descends db a d → ¬ stored db' "Conversation" d)
    ∧ (∀ c, objects db' !! ("Club", c) = objects db !! ("Club", c))
    ∧ (∀ u, objects db' !! ("User", u) = objects db !! ("User", u)).
Proof.
  intros Hs. eexists. split; [by apply delete_non_user_ok|].
  assert (Hone : ∀ m f pk, (m, f, "Channel", CASCADE) ∈ relations →
            column_of db m pk f = Some (VRef ch) →
            cascades db ("Channel", ch) (m, pk)).
  { intros m f pk Hin Hcol. eapply cascades_step; [constructor|].
    by eapply refs_to_intro. }
  assert (Hframe : ∀ m pk, m = "Club" ∨ m = "User" →
            ¬ cascades db ("Channel", ch) (m, pk)).
  { intros m pk Hm Hc.
    apply (cascades_models
             ["Channel"; "ChannelSubscription"; "Post"; "Conversation"]) in Hc;
      [|reflexivity|by left].
    apply list_elem_of_In in Hc. simpl in Hc.
    destruct Hm as [-> | ->]; intuition discriminate. }
  split_and!.
  - intros pk H [r Hr]. rewrite gone_after_delete in Hr; [done|].
    apply (Hone _ "channel"); [in_relations|done].
  - intros pk H [r Hr]. rewrite gone_after_delete in Hr; [done|].
    apply (Hone _ "channel"); [in_relations|done].
  - intros a d Ha Hd [r Hr]. rewrite gone_after_delete in Hr; [done|].
    eapply thread_cascades; [|exact Hd].
    apply (Hone _ "channel"); [in_relations|done].
  - intros c. apply kept_after_delete. apply Hframe. by left.
  - intros u. apply kept_after_delete. apply Hframe. by right.
Qed.

Lemma channel_delete_cascades_witness :
  stored post_db "Channel" 1
  ∧ ∃ db', delete "Channel" 1 post_db = (db', Deleted)
      ∧ ¬ stored db' "Post" 1 ∧ ¬ stored db' "Conversation" 2
      ∧ objects db' !! ("Club", 1) = objects post_db !! ("Club", 1).
Proof.
  assert (stored post_db "Channel" 1) as Hs by stored_now.
  split; [exact Hs|].
  destruct (channel_delete_cascades post_db 1 Hs)
    as (db' & Hd & _ & Hp & Hc & Hclub & _).
  exists db'. split; [exact Hd|]. split_and!.
  - apply Hp. decided.
  - apply (Hc 1 2); [decided|].
    eapply descends_child; [constructor|stored_now|decided].
  - apply Hclub.
Defined.

(** X11. Deleting a club also removes the links of the club to projects,
    the memberships of its roles, the subscriptions to its channel and the
    replies to its feedback; it leaves every user row and every project row
    as they were. *)
Theorem club_delete_reach db c :
  stored db "Club" c →
  ∃ db', delete "Club" c db = (db', Deleted)
    ∧ (∀ pk, column_of db "ClubProject" pk "club" = Some (VRef c) →
         ¬ stored db' "ClubProject" pk)
    ∧ (∀ role pk, column_of db "ClubRole" role "club" = Some (VRef c) →
         column_of db "ClubMembership" pk "club_role" = Some (VRef role) →
         ¬ stored db' "ClubMembership" pk)
    ∧ (∀ ch pk, column_of db "Channel" ch "club" = Some (VRef c) →
         column_of db "ChannelSubscription" pk "channel" = Some (VRef ch) →
         ¬ stored db' "ChannelSubscription" pk)
    ∧ (∀ fb pk, column_of db "Feedback" fb "club" = Some (VRef c) →
         column_of db "FeedbackReply" pk "parent" = Some (VRef fb) →
         ¬ stored db' "FeedbackReply" pk)
    ∧ (∀ u, objects db' !! ("User", u) = objects db !! ("User", u))
    ∧ (∀ p, objects db' !! ("Project", p) = objects db !! ("Project", p)).
Proof.
  intros Hs. eexists. split; [by apply delete_non_user_ok|].
  assert (Hone : ∀ m f pk, (m, f, "Club", CASCADE) ∈ relations →
            column_of db m pk f = Some (VRef c) →
            cascades db ("Club", c) (m, pk)).
  { intros m f pk Hin Hcol. eapply cascades_step; [constructor|].
    by eapply refs_to_intro. }
  assert (Htwo : ∀ m1 f1 k1 m2 f2 k2,
            (m1, f1, "Club", CASCADE) ∈ relations →
            (m2, f2, m1, CASCADE) ∈ relations →
            column_of db m1 k1 f1 = Some (VRef c) →
            column_of db m2 k2 f2 = Some (VRef k1) →
            ¬ stored (remove_objects (collect db {[("Club", c)]}) db) m2 k2).
  { intros m1 f1 k1 m2 f2 k2 H1 H2 Hc1 Hc2 [r Hr].
    rewrite gone_after_delete in Hr; [done|].
    eapply cascades_step; [by eapply Hone|]. by eapply refs_to_intro. }
  assert (Hframe : ∀ m pk, m = "User" ∨ m = "Project" →
            ¬ cascades db ("Club", c) (m, pk)).
  { intros m pk Hm Hc.
    apply (cascades_models
             ["Club"; "ClubMembershipRequest"; "ClubRole"; "ClubMembership";
              "ClubProject"; "Channel"; "ChannelSubscription"; "Post";
              "Conversation"; "Feedback"; "FeedbackReply"]) in Hc;
      [|reflexivity|by left].
    apply list_elem_of_In in Hc. simpl in Hc.
    destruct Hm as [-> | ->]; intuition discriminate. }
  split_and!.
  - intros pk H [r Hr]. rewrite gone_after_delete in Hr; [done|].
    apply (Hone _ "club"); [in_relations|done].
  - intros role pk H1 H2.
    apply (Htwo "ClubRole" "club" role _ "club_role"); [in_relations..|done|done].
  - intros ch pk H1 H2.
    apply (Htwo "Channel" "club" ch _ "channel"); [in_relations..|done|done].
  - intros fb pk H1 H2.
    apply (Htwo "Feedback" "club" fb _ "parent"); [in_relations..|done|done].
  - intros u. apply kept_after_delete. apply Hframe. by left.
  - intros p. apply kept_after_delete. apply Hframe. by right.
Qed.

Lemma club_delete_reach_witness :
  stored post_db "Club" 1
  ∧ ∃ db', delete "Club" 1 post_db = (db', Deleted)
      ∧ ¬ stored db' "ClubMembership" 1 ∧ ¬ stored db' "FeedbackReply" 1
      ∧ objects db' !! ("User", 1) = objects post_db !! ("User", 1).
Proof.
  assert (stored post_db "Club" 1) as Hs by stored_now.
  split; [exact Hs|].
  destruct (club_delete_reach post_db 1 Hs)
    as (db' & Hd & _ & Hm & _ & Hf & Hu & _).
  exists db'. split; [exact Hd|]. split_and!.
  - apply (Hm 1); decided.
  - apply (Hf 1); decided.
  - apply Hu.
Defined.

(** X12. Deleting a user who leads no project also removes the user's
    project memberships; it leaves every club, club role, channel, project,
    post and club-project link as they were. *)
Theorem user_delete_reach db u :
  stored db "User" u → leads_no_project db u →
  ∃ db', delete "User" u db = (db', Deleted)
    ∧ (∀ pk, column_of db "ProjectMembership" pk "user" = Some (VRef u) →
         ¬ stored db' "ProjectMembership" pk)
    ∧ (∀ m pk,
         m ∈ ["Club"; "ClubRole"; "Channel"; "Project"; "Post"; "ClubProject"] →
         objects db' !! (m, pk) = objects db !! (m, pk)).
Proof.
  intros Hs Hl. eexists. split; [by apply user_delete_ok|]. split.
  - intros pk H [r Hr]. rewrite gone_after_delete in Hr; [done|].
    eapply cascades_step; [constructor|].
    eapply refs_to_intro; [|exact H]. in_relations.
  - intros m pk Hm. apply kept_after_delete. intros Hc.
    apply (cascades_models
             ["User"; "ClubMembershipRequest"; "ClubMembership";
              "ProjectMembership"; "ChannelSubscription"; "Conversation";
              "Feedback"; "FeedbackReply"]) in Hc; [|reflexivity|by left].
    apply list_elem_of_In in Hc, Hm. simpl in Hc, Hm.
    destruct Hm as [<-|[<-|[<-|[<-|[<-|[<-|[]]]]]]]; intuition discriminate.
Qed.

Lemma user_delete_reach_witness :
  stored project_db "User" 1 ∧ leads_no_project project_db 1
  ∧ ∃ db', delete "User" 1 project_db = (db', Deleted)
      ∧ ¬ stored db' "ProjectMembership" 1
      ∧ objects db' !! ("Project", 1) = objects project_db !! ("Project", 1).
Proof.
  assert (stored project_db "User" 1) as Hs by stored_now.
  assert (leads_no_project project_db 1) as Hl
    by (apply leads_no_project_check; decided).
  split; [exact Hs|]. split; [exact Hl|].
  destruct (user_delete_reach project_db 1 Hs Hl) as (db' & Hd & Hm & Hk).
  exists db'. split; [exact Hd|]. split.
  - apply Hm. decided.
  - apply Hk. decided.
Defined.

(** X13. A leader can be deleted once the projects led are gone: if a user
    leads the project [p] and no other, deleting the user fails, and after
    the deletion of [p] it succeeds. *)
Theorem leader_deletable_after_project db u p :
  stored db "User" u →
  column_of db "Project" p "leader" = Some (VRef u) →
  (∀ q, column_of db "Project" q "leader" = Some (VRef u) → q = p) →
  delete "User" u db = (db, Err ProtectedError)
  ∧ ∃ db1 db2,
      delete "Project" p db = (db1, Deleted)
      ∧ delete "User" u db1 = (db2, Deleted)
      ∧ ¬ stored db2 "User" u.
Proof.
  intros Hu Hp Honly. split.
  { eapply delete_protected; [done|constructor|].
    eapply refs_to_intro; [|exact Hp]. in_relations. }
  assert (stored db "Project" p) as Hsp by by eapply column_of_stored.
  set (db1 := remove_objects (collect db {[("Project", p)]}) db).
  assert (stored db1 "User" u) as Hu1.
  { destruct Hu as [r Hr]. exists r. unfold db1.
    rewrite kept_after_delete; [done|].
    intros [[=]|[[[=]|[=]] _]]%project_cascades. }
  assert (leads_no_project db1 u) as Hl1.
  { intros q (r & Hr & Hf)%column_of_Some. unfold db1 in Hr.
    destruct (decide (q = p)) as [->|Hne].
    - rewrite gone_after_delete in Hr; [done|constructor].
    - apply Hne, Honly. apply column_of_Some. exists r. split; [|done].
      rewrite lookup_remove_objects in Hr. by case_decide. }
  exists db1, (remove_objects (collect db1 {[("User", u)]}) db1). split_and!.
  - by apply delete_non_user_ok.
  - by apply user_delete_ok.
  - intros [r Hr]. rewrite gone_after_delete in Hr; [done|constructor].
Qed.

Lemma leader_deletable_after_project_witness :
  stored project_db "User" 2
  ∧ column_of project_db "Project" 1 "leader" = Some (VRef 2)
  ∧ ∃ db1 db2,
      delete "Project" 1 project_db = (db1, Deleted)
      ∧ delete "User" 2 db1 = (db2, Deleted).
Proof.
  assert (stored project_db "User" 2) as Hs by stored_now.
  assert (column_of project_db "Project" 1 "leader" = Some (VRef 2)) as Hp
    by decided.
  split; [exact Hs|]. split; [exact Hp|].
  assert (Honly : ∀ q, column_of project_db "Project" q "leader" = Some (VRef 2) →
            q = 1).
  { intros q (r & Hr & _)%column_of_Some.
    assert (map_Forall (λ (x : obj) (_ : row), x.1 = "Project" → x.2 = 1)
              (objects project_db)) as Hall by decided.
    exact (Hall _ _ Hr eq_refl). }
  pose proof (leader_deletable_after_project project_db 2 1 Hs Hp Honly) as H.
  destruct H as (_ & db1 & db2 & H1 & H2 & _).
  exists db1, db2. split; [exact H1|exact H2].
Defined.

(** ** References after a plain write *)

Lemma self_reference_accepted :
  ∃ db',
    insert 7 "Conversation"
      {[ "content" := VStr "loop"; "channel" := VRef 1; "author" := VRef 1;
         "parent" := VRef 3 ]} thread_db = (db', Created 3).
Proof.
  destruct (insert_outcome 7 "Conversation"
              {[ "content" := VStr "loop"; "channel" := VRef 1;
                 "author" := VRef 1; "parent" := VRef 3 ]} thread_db)
    as [[e He]|(db' & pk & Hc)].
  - exfalso.
    assert ((insert 7 "Conversation"
               {[ "content" := VStr "loop"; "channel" := VRef 1;
                  "author" := VRef 1; "parent" := VRef 3 ]} thread_db).2
            = Created 3) as Hok by (vm_compute; reflexivity).
    rewrite He in Hok. cbn [snd] in Hok. discriminate Hok.
  - exists db'.
    assert ((insert 7 "Conversation"
               {[ "content" := VStr "loop"; "channel" := VRef 1;
                  "author" := VRef 1; "parent" := VRef 3 ]} thread_db).2
            = Created 3) as Hok by (vm_compute; reflexivity).
    rewrite Hc in Hok. cbn [snd] in Hok. injection Hok as ->. exact Hc.
Qed.

(** X14. The tables check a reference on the row as written.  After a
    plain write every reference of the written row points to a stored row
    of the target model.  So an insertion that supplies a reference is
    accepted only if the row referred to is stored or is the inserted row
    itself, and a save that assigns a reference only if the row referred
    to is stored.  A conversation inserted as its own parent is
    accepted. *)
Theorem written_references_live :
  (∀ db db' m pk f to od ref,
     written db db' m pk → (m, f, to, od) ∈ relations →
     column_of db' m pk f = Some (VRef ref) → stored db' to ref)
  ∧ (∀ now m kw db db' pk f to od ref,
       insert now m kw db = (db', Created pk) → (m, f, to, od) ∈ relations →
       kw !! f = Some (VRef ref) →
       stored db to ref ∨ (to, ref) = (m, pk))
  ∧ (∀ m pk f to od ref db db',
       save m pk f (VRef ref) db = (db', Updated) → (m, f, to, od) ∈ relations →
       stored db to ref)
  ∧ (∃ db',
       insert 7 "Conversation"
         {[ "content" := VStr "loop"; "channel" := VRef 1; "author" := VRef 1;
            "parent" := VRef 3 ]} thread_db = (db', Created 3)).
Proof.
  assert (Hlive : ∀ db db' m pk f to od ref,
            written db db' m pk → (m, f, to, od) ∈ relations →
            column_of db' m pk f = Some (VRef ref) → stored db' to ref).
  { intros db db' m pk f to od ref
      (M & inst & HM & Hrow & _ & Hok)%written_row Hrel Hcol.
    apply constraints_ok_true in Hok as (_ & _ & Hfk).
    destruct (relation_field _ _ _ _ _ Hrel HM) as (g & Hg & <- & Hty).
    eapply foreign_keys_ok_true; [exact Hfk|exact Hg|exact Hty|].
    apply getattr_Some. unfold column_of in Hcol. by rewrite Hrow in Hcol. }
  split_and!.
  - exact Hlive.
  - intros now m kw db db' pk f to od ref Hi Hrel Hkw.
    assert (stored db' to ref) as Hs.
    { apply (Hlive db db' m pk f to od ref); [left; eauto|done|].
      destruct (insert_Created _ _ _ _ _ _ Hi) as (M & HM & _).
      destruct (relation_field _ _ _ _ _ Hrel HM) as (g & Hg & <- & Hty).
      rewrite (insert_column _ _ _ _ _ _ _ _ _ Hi HM
                 (get_field_in _ _ (schema_NoDup _ _ HM) Hg)).
      by rewrite (relation_not_auto _ _ _ Hty), Hkw. }
    apply insert_Created in Hi as (M & _ & _ & _ & _ & _ & ->).
    unfold stored in *. simpl in Hs.
    destruct (decide ((m, pk) = (to, ref))) as [Heq|Hne]; [by right|].
    left. by rewrite lookup_insert_ne in Hs.
  - intros m pk f to od ref db db' Hsv Hrel.
    assert (stored db' to ref) as Hs.
    { apply (Hlive db db' m pk f to od ref); [right; eauto|done|].
      rewrite (save_column _ _ _ _ _ _ f Hsv). by apply decide_True. }
    apply save_Updated in Hsv as (M & r & g & _ & Hr & _ & _ & _ & ->).
    unfold stored in *. simpl in Hs.
    destruct (decide ((m, pk) = (to, ref))) as [Heq|Hne].
    + injection Heq as <- <-. by exists r.
    + by rewrite lookup_insert_ne in Hs.
  - exact self_reference_accepted.
Qed.

(** A post inserted for a channel that is not stored is refused. *)
Lemma written_references_live_witness :
  ¬ stored thread_db "Channel" 9
  ∧ ∃ e, insert 7 "Post" {[ "content" := VStr "x"; "channel" := VRef 9 ]} thread_db
         = (thread_db, Err e).
Proof.
  assert (¬ stored thread_db "Channel" 9) as Hns by stored_now.
  split; [exact Hns|].
  destruct written_references_live as (_ & Hin & _).
  destruct (insert_outcome 7 "Post"
              {[ "content" := VStr "x"; "channel" := VRef 9 ]} thread_db)
    as [He|(db' & pk & Hc)]; [exact He|].
  exfalso.
  destruct (Hin 7 "Post" {[ "content" := VStr "x"; "channel" := VRef 9 ]}
              thread_db db' pk "channel" "Channel" CASCADE 9 Hc)
    as [Hs|Heq]; [in_relations|decided|exact (Hns Hs)|].
  clear -Heq. discriminate Heq.
Defined.

(** ** One-to-one columns after a plain write *)

Lemma unique_ok_true db m pk fs inst f :
  unique_ok db m pk fs inst = true → f ∈ fs → unique f = true →
  getattr inst (f_name f) ≠ VNone →
  ¬ taken db m (Some pk) (f_name f) (getattr inst (f_name f)).
Proof.
  unfold unique_ok. rewrite forallb_forall. intros H Hf Hu Hv Ht.
  apply list_elem_of_In in Hf. specialize (H f Hf). simpl in H.
  rewrite Hu, (bool_decide_eq_false_2 _ Hv) in H. simpl in H.
  apply negb_true_iff in H. apply takenb_spec in Ht. congruence.
Qed.

(** X20. The table keeps a one-to-one column ([FeedbackReply.parent],
    [Channel.club]) unique on the plain path too: after a plain write, a
    row of the table that holds the value the written row has in such a
    column is the written row. *)
Theorem written_one_to_one_unique db db' m pk M f v pk2 :
  written db db' m pk →
  get_model m = Some M → f ∈ m_fields M → unique f = true → v ≠ VNone →
  column_of db' m pk (f_name f) = Some v →
  column_of db' m pk2 (f_name f) = Some v →
  pk2 = pk.
Proof.
  intros (M' & inst & HM' & Hrow & _ & Hok)%written_row HM Hf Hu Hv Hc1 Hc2.
  rewrite HM in HM'. injection HM' as <-.
  apply constraints_ok_true in Hok as (_ & Huq & _).
  destruct (get_model_Some _ _ HM) as [_ Hn]. rewrite Hn in Huq.
  destruct (decide (pk2 = pk)) as [|Hne]; [done|]. exfalso.
  unfold column_of in Hc1. rewrite Hrow in Hc1. simpl in Hc1.
  apply getattr_Some in Hc1.
  apply (unique_ok_true _ _ _ _ _ f Huq Hf Hu); [by rewrite Hc1|].
  rewrite Hc1. apply column_of_Some in Hc2 as (r & Hr & Hrv).
  exists pk2, r. split_and!; [done|congruence|done].
Qed.

(** The reply of the forum is saved with another content: it is still the
    only reply to its feedback. *)
Lemma written_one_to_one_unique_witness :
  ∃ db',
    written feedback_db db' "FeedbackReply" 1
    ∧ ∀ pk2, column_of db' "FeedbackReply" pk2 "parent" = Some (VRef 1) → pk2 = 1.
Proof.
  destruct (save_outcome "FeedbackReply" 1 "content" (VStr "edited") feedback_db)
    as [[e He]|(db' & Hs)].
  - exfalso.
    assert ((save "FeedbackReply" 1 "content" (VStr "edited") feedback_db).2
            = Updated) as Hok by (vm_compute; reflexivity).
    rewrite He in Hok. cbn [snd] in Hok. discriminate Hok.
  - assert (written feedback_db db' "FeedbackReply" 1) as Hw by (right; eauto).
    assert (column_of db' "FeedbackReply" 1 "parent" = Some (VRef 1)) as Hp.
    { rewrite (save_column _ _ _ _ _ _ "parent" Hs), decide_False by done.
      decided. }
    exists db'. split; [exact Hw|]. intros pk2 H2.
    apply (written_one_to_one_unique feedback_db db' "FeedbackReply" 1
             FeedbackReply
             (column "parent" (OneToOneField "Feedback" CASCADE) [blank false])
             (VRef 1) pk2 Hw);
      [reflexivity|by apply (get_field_Some FeedbackReply "parent")
      |reflexivity|discriminate|exact Hp|exact H2].
Defined.

(** A second reply to the feedback, inserted without validation, is
    refused by the table. *)
Example second_reply_refused :
  (insert 13 "FeedbackReply"
     {[ "content" := VStr "again"; "parent" := VRef 1 ]} feedback_db).2
  = Err IntegrityError.
Proof. vm_compute. reflexivity. Qed.

(** ** What validation rejects *)

Lemma schema_choices_required m M f :
  get_model m = Some M → f ∈ m_fields M → is_Some (f_choices f) →
  f_blank f = false ∧ auto_now_add_of f = false.
Proof.
  assert (Forall (λ M, Forall (λ f, is_Some (f_choices f) →
                                     f_blank f = false ∧ auto_now_add_of f = false)
                         (m_fields M)) schema) as H
    by (apply (bool_decide_unpack _); vm_compute; exact I).
  intros [Hin _]%get_model_Some Hf. rewrite Forall_forall in H.
  specialize (H M Hin). rewrite Forall_forall in H. by apply H.
Qed.

(** X15. Validation holds a field declared with [choices] ([status],
    [privilege]) to its codes: an instance whose column holds a string
    that is not one of them does not pass [full_clean]. *)
Theorem undeclared_choice_fails_validation db m M f c s self inst :
  get_model m = Some M → f ∈ m_fields M →
  f_choices f = Some c → s ∉ c.*1 →
  inst !! f_name f = Some (VStr s) →
  full_clean db M self inst ≠ None.
Proof.
  intros HM Hf Hc Hs Hcol [Hcl _]%full_clean_None.
  destruct (schema_choices_required m M f HM Hf) as [Hb Ha]; [by rewrite Hc|].
  specialize (Hcl f Hf). rewrite (getattr_Some _ _ _ Hcol) in Hcl.
  apply clean_field_required in Hcl as (_ & _ & _ & Hch); [|done..].
  specialize (Hch c Hc). simpl in Hch. by apply bool_decide_eq_true in Hch.
Qed.

Lemma undeclared_choice_fails_validation_witness :
  ("XX" ∉ STATUS_CHOICES.*1)
  ∧ full_clean feedback_db ClubMembershipRequest None
      (instance ClubMembershipRequest
         {[ "user" := VRef 1; "club" := VRef 1; "status" := VStr "XX" ]})
    ≠ None.
Proof.
  assert ("XX" ∉ STATUS_CHOICES.*1) as Hx by decided.
  split; [exact Hx|].
  apply (undeclared_choice_fails_validation feedback_db "ClubMembershipRequest"
           ClubMembershipRequest
           (column "status" (CharField 2)
              [choices STATUS_CHOICES; blank false; default_ (VStr "PD")])
           STATUS_CHOICES "XX");
    [reflexivity|by apply (get_field_Some ClubMembershipRequest "status")
    |reflexivity|exact Hx|decided].
Defined.

(** ** One channel per club *)



(** ** The privilege of a club role *)

Lemma in_choices_code c v :
  in_choices c v = true → ∃ code, v = VStr code ∧ code ∈ c.*1.
Proof.
  destruct v as [|s| |]; simpl; try done.
  intros Hs%bool_decide_eq_true. eauto.
Qed.

(** X17. A club role inserted or created without a privilege has the
    privilege ["MEM"], the code of Member; the declared codes are ["REP"]
    and ["MEM"], and an instance that passes [full_clean] has one of them
    as its privilege. *)
Theorem role_privilege_default_and_validation :
  (∀ now kw db db' pk,
     kw !! "privilege" = None →
     insert now "ClubRole" kw db = (db', Created pk)
     ∨ create now "ClubRole" kw db = (db', Created pk) →
     column_of db' "ClubRole" pk "privilege" = Some (VStr "MEM"))
  ∧ PRIVILEGE_CHOICES = [("REP", "Representative"); ("MEM", "Member")]
  ∧ (∀ db self inst,
       full_clean db ClubRole self inst = None →
       inst !! "privilege" = Some (VStr "REP")
       ∨ inst !! "privilege" = Some (VStr "MEM")).
Proof.
  assert (get_model "ClubRole" = Some ClubRole) as HM by reflexivity.
  assert (get_field ClubRole "privilege"
          = Some (column "privilege" (CharField 3)
                    [choices PRIVILEGE_CHOICES; blank false; default_ (VStr "MEM")]))
    as Hf by reflexivity.
  split_and!.
  - intros now kw db db' pk Hkw [Hc|Hc].
    + rewrite (insert_column _ _ _ _ _ _ _ _ _ Hc HM Hf), Hkw. reflexivity.
    + rewrite (create_column _ _ _ _ _ _ _ _ _ Hc HM Hf), Hkw. reflexivity.
  - reflexivity.
  - intros db self inst [Hcl _]%full_clean_None.
    destruct (get_field_Some _ _ _ Hf) as [Hin _].
    specialize (Hcl _ Hin).
    apply clean_field_required in Hcl as (_ & _ & _ & Hch); [|reflexivity..].
    specialize (Hch PRIVILEGE_CHOICES eq_refl).
    apply in_choices_code in Hch as (code & Hv & Hcode).
    change (getattr inst "privilege" = VStr code) in Hv.
    apply getattr_lookup in Hv; [|done]. rewrite Hv.
    apply list_elem_of_In in Hcode. simpl in Hcode.
    destruct Hcode as [<-|[<-|[]]]; [by left|by right].
Qed.

(** A role inserted without a privilege is a member's. *)
Lemma role_privilege_default_and_validation_witness :
  ∃ db' pk,
    insert 31 "ClubRole"
      {[ "name" := VStr "captain"; "description" := VStr "leads the team";
         "club" := VRef 1 ]} thread_db = (db', Created pk)
    ∧ column_of db' "ClubRole" pk "privilege" = Some (VStr "MEM").
Proof.
  destruct role_privilege_default_and_validation as [Hd _].
  destruct (insert_outcome 31 "ClubRole"
              {[ "name" := VStr "captain"; "description" := VStr "leads the team";
                 "club" := VRef 1 ]} thread_db)
    as [[e He]|(db' & pk & Hc)].
  - exfalso.
    assert ((insert 31 "ClubRole"
               {[ "name" := VStr "captain";
                  "description" := VStr "leads the team";
                  "club" := VRef 1 ]} thread_db).2 = Created 1)
      as Hok by (vm_compute; reflexivity).
    rewrite He in Hok. cbn [snd] in Hok. discriminate Hok.
  - exists db', pk. split; [exact Hc|].
    apply (Hd 31 {[ "name" := VStr "captain";
                    "description" := VStr "leads the team";
                    "club" := VRef 1 ]} thread_db);
      [decided|left; exact Hc].
Defined.

(** ** Many-to-many declarations *)

(** X18. Every many-to-many declaration of the schema goes through a model
    that links both ends: the [through] model has a CASCADE foreign key to
    the declaring model and one to the target, so that deleting either end
    removes the link rows and never the other end. *)
Theorem many_to_many_through_links M d :
  M ∈ schema → d ∈ m_many_to_many M → through_links (m_name M) d.
Proof.
  intros HM Hd.
  assert (forallb
            (λ M, forallb
                    (λ d : string * string * string,
                       existsb (λ rel : relation,
                                  bool_decide (rel = (d.2, rel.1.1.2, m_name M, CASCADE)))
                               relations
                       && existsb (λ rel : relation,
                                     bool_decide (rel = (d.2, rel.1.1.2, d.1.2, CASCADE)))
                                  relations)
                    (m_many_to_many M))
            schema = true) as H by (vm_compute; reflexivity).
  rewrite forallb_forall in H.
  apply list_elem_of_In in HM, Hd. specialize (H M HM).
  rewrite forallb_forall in H. specialize (H d Hd).
  apply andb_prop in H as [H1 H2].
  apply existsb_exists in H1 as (rel1 & Hr1 & E1%bool_decide_eq_true).
  apply existsb_exists in H2 as (rel2 & Hr2 & E2%bool_decide_eq_true).
  apply list_elem_of_In in Hr1, Hr2.
  exists rel1.1.1.2, rel2.1.1.2. split; congruence.
Qed.

Lemma many_to_many_through_links_witness :
  Club ∈ schema
  ∧ through_links "Club" ("requests", "User", "ClubMembershipRequest").
Proof.
  assert (Club ∈ schema) as HM by (apply list_elem_of_In; simpl; tauto).
  split; [exact HM|].
  apply (many_to_many_through_links Club _ HM).
  apply list_elem_of_In. simpl. tauto.
Defined.

(** ** A creation that succeeds *)







